(** * The entity-change multiplexer ("all-watcher") of juju's state package.

    The repository only carries the tests of this component
    (src/container/lxc/lxcutils/utils.go, package state); the snapshot store
    [allInfo], the multiplexer [allWatcher] and the client watcher are
    modelled from the spec, and each modelled definition says so.  The tests
    fix the field names ([latestRevno], [creationRevno], [refCount], ...) and
    several behaviours the model follows. *)

From Stdlib Require Import ZArith List String Bool Lia Sorting.Sorted.
From Stdlib Require Import Permutation.
From Stdlib Require Ascii.
Import ListNotations.
Open Scope Z_scope.

(** ** Entities (params.EntityInfo and entityId) *)

Inductive EntityInfo : Type :=
| MachineInfo (Id InstanceId : string)
| ServiceInfo (Name : string) (Exposed : bool)
| UnitInfo (Name Service : string)
| RelationInfo (Key : string).

Definition EntityKind (i : EntityInfo) : string :=
  match i with
  | MachineInfo _ _ => "machine"
  | ServiceInfo _ _ => "service"
  | UnitInfo _ _ => "unit"
  | RelationInfo _ => "relation"
  end%string.

Definition EntityId (i : EntityInfo) : string :=
  match i with
  | MachineInfo id _ => id
  | ServiceInfo n _ => n
  | UnitInfo n _ => n
  | RelationInfo k => k
  end.

Record entityId : Type := mkEntityId { collection : string; id : string }.

Definition entityIdForInfo (i : EntityInfo) : entityId :=
  mkEntityId (EntityKind i) (EntityId i).

Definition entityId_eqb (a b : entityId) : bool :=
  String.eqb (collection a) (collection b) && String.eqb (id a) (id b).

Lemma entityId_eqb_spec (a b : entityId) : entityId_eqb a b = true <-> a = b.
Proof.
  destruct a as [ca ia], b as [cb ib]; unfold entityId_eqb; simpl.
  rewrite andb_true_iff, !String.eqb_eq; split.
  - intros [-> ->]; reflexivity.
  - intros H; inversion H; auto.
Qed.

Lemma entityId_eqb_refl (a : entityId) : entityId_eqb a a = true.
Proof. apply entityId_eqb_spec; reflexivity. Qed.

(** params.Delta *)
Record Delta : Type := mkDelta { Removed : bool; Entity : EntityInfo }.

(** ** The snapshot store ([allInfo]) *)

(** entityEntry, with the fields the tests build it with. *)
Record entityEntry : Type := mkEntry {
  creationRevno : Z;
  revno : Z;
  refCount : Z;
  removed : bool;
  info : EntityInfo
}.

(** Modelled from the spec: the [allInfo] store (§3 "Snapshot").  The Go
    value keeps a [container/list] ordered by [revno] plus a map from
    [entityId] to list element; here the two are one association list in
    sequence order, head = least recently changed, tail = most recently
    changed (the tests walk it from [Back()], newest last in their
    expectations). *)
Record allInfo : Type := mkAllInfo {
  latestRevno : Z;
  entries : list (entityId * entityEntry)
}.

(** Modelled from the spec: [newAllInfo], the empty snapshot (S1). *)
Definition newAllInfo : allInfo := mkAllInfo 0 [].

Fixpoint lookup (k : entityId) (l : list (entityId * entityEntry))
  : option entityEntry :=
  match l with
  | [] => None
  | (k', e) :: l' => if entityId_eqb k k' then Some e else lookup k l'
  end.

(** Removal of an element from the list and from the index. *)
Definition remove_key (k : entityId) (l : list (entityId * entityEntry)) :=
  filter (fun p => negb (entityId_eqb (fst p) k)) l.

(** In-place change of the entry the index points at (a write through the
    element pointer). *)
Fixpoint modify_key (k : entityId) (f : entityEntry -> entityEntry)
    (l : list (entityId * entityEntry)) : list (entityId * entityEntry) :=
  match l with
  | [] => []
  | (k', e) :: l' =>
      if entityId_eqb k k' then (k', f e) :: l' else (k', e) :: modify_key k f l'
  end.

Definition with_refCount (e : entityEntry) (n : Z) : entityEntry :=
  mkEntry (creationRevno e) (revno e) n (removed e) (info e).

(** Modelled from the spec: [add(key, info)] (§4.1).  Precondition: key
    absent (enforced by the step relation [snap_step] below). *)
Definition add (k : entityId) (i : EntityInfo) (a : allInfo) : allInfo :=
  let r := latestRevno a + 1 in
  mkAllInfo r (entries a ++ [(k, mkEntry r r 0 false i)]).

(** Modelled from the spec: [update(key, info)] (§4.1): if absent behaves as
    add; otherwise replaces info, restamps, moves to the tail and clears
    [removed]. *)
Definition update (k : entityId) (i : EntityInfo) (a : allInfo) : allInfo :=
  match lookup k (entries a) with
  | None => add k i a
  | Some e =>
      let r := latestRevno a + 1 in
      mkAllInfo r (remove_key k (entries a)
                     ++ [(k, mkEntry (creationRevno e) r (refCount e) false i)])
  end.

(** Modelled from the spec: [delete(key)] (§4.1): removes the entry from
    sequence and index without touching [latestRevno]. *)
Definition delete (k : entityId) (a : allInfo) : allInfo :=
  mkAllInfo (latestRevno a) (remove_key k (entries a)).

(** Modelled from the spec: [markRemoved(key)] (§4.1, with §3 "every
    mutation (add, update, mark-removed of an existing non-removed entry)
    increments it").  Absent key or already removed entry: no-op.
    Otherwise [latestRevno] is incremented; an entry with [refCount = 0] is
    then deleted, any other is flagged removed, stamped and moved to the
    tail.  The tests "mark removed on entry with zero ref count" (revno 2,
    empty) and "mark removed on already marked entry" fix both branches. *)
Definition markRemoved (k : entityId) (a : allInfo) : allInfo :=
  match lookup k (entries a) with
  | None => a
  | Some e =>
      if removed e then a
      else
        let r := latestRevno a + 1 in
        if refCount e =? 0 then mkAllInfo r (remove_key k (entries a))
        else mkAllInfo r (remove_key k (entries a)
                          ++ [(k, mkEntry (creationRevno e) r (refCount e) true (info e))])
  end.

(** Modelled from the spec: [decRef(entry)] (§4.1): decrements [refCount];
    if it reaches 0 and the entry is removed, deletes it. *)
Definition decRef (k : entityId) (a : allInfo) : allInfo :=
  match lookup k (entries a) with
  | None => a
  | Some e =>
      let n := refCount e - 1 in
      if (n =? 0) && removed e then delete k a
      else mkAllInfo (latestRevno a)
             (modify_key k (fun e' => with_refCount e' n) (entries a))
  end.

(** The reference increment done by [respond] (and by the tests'
    [allInfoIncRef] helper). *)
Definition incRef (k : entityId) (a : allInfo) : allInfo :=
  match lookup k (entries a) with
  | None => a
  | Some e =>
      mkAllInfo (latestRevno a)
        (modify_key k (fun e' => with_refCount e' (refCount e + 1)) (entries a))
  end.

(** Skips the entries already seen at cursor [c]: walks from the head while
    [revno <= c], i.e. starts at the first entry whose [revno > c]. *)
Fixpoint skip_seen (c : Z) (l : list entityEntry) : list entityEntry :=
  match l with
  | [] => []
  | e :: l' => if revno e <=? c then skip_seen c l' else l
  end.

Definition toDelta (e : entityEntry) : Delta := mkDelta (removed e) (info e).

(** Modelled from the spec: [changesSince(revno)] (§4.1). *)
Definition changesSince (c : Z) (a : allInfo) : list Delta :=
  map toDelta
    (filter (fun e => negb (removed e && (c <? creationRevno e)))
       (skip_seen c (map snd (entries a)))).

(** The snapshot operations, as a step relation. *)
Inductive snap_step : allInfo -> allInfo -> Prop :=
| step_add k i a : lookup k (entries a) = None -> snap_step a (add k i a)
| step_update k i a : snap_step a (update k i a)
| step_markRemoved k a : snap_step a (markRemoved k a)
| step_delete k a : snap_step a (delete k a)
| step_decRef k a : snap_step a (decRef k a)
| step_incRef k a : snap_step a (incRef k a).

Inductive reachable : allInfo -> Prop :=
| reach_new : reachable newAllInfo
| reach_step a a' : reachable a -> snap_step a a' -> reachable a'.

(** The delta filter of [changesSince]: entries changed after [c], minus the
    removals of entries created after [c]. *)
Definition reported (c : Z) (e : entityEntry) : bool :=
  (c <? revno e) && negb (removed e && (c <? creationRevno e)).

(** [tail_revno]: the [revno] of the tail entry, 0 for an empty sequence. *)
Definition tail_revno (a : allInfo) : Z :=
  match rev (entries a) with
  | [] => 0
  | p :: _ => revno (snd p)
  end.

(** ** The multiplexer ([allWatcher]) *)

(** Result of [backing.fetch(key)] (§4.4, §6). *)
Inductive fetchResult : Type :=
| Fetched (i : EntityInfo)
| NotFound
| FetchError (err : string).

(** [errWatcherStopped]; the message is the one [TestRunStop] matches. *)
Definition errWatcherStopped : string := "state watcher was stopped".

(** [allRequest]: the requesting watcher and its reply channel, [None] for
    the nil channel that asks to stop the watcher. *)
Record allRequest : Type := mkRequest { req_w : nat; req_reply : option nat }.

(** A value sent on a reply channel, with the request's [changes]. *)
Record replyMsg : Type := mkReply {
  reply_w : nat; reply_chan : nat; reply_ok : bool; reply_changes : list Delta
}.

Inductive awStatus : Type := Alive | Dead (err : option string).

(** Modelled from the spec: the multiplexer state (§4.3, §5): the snapshot,
    the waiting table (per watcher, its pending reply channels, most recent
    first, as [TestHandle] observes), each watcher's cursor ([revno], 0 when
    absent), the stopped watchers, the replies sent so far, the backing's
    fetch, and the loop status with its latched error. *)
Record allWatcher : Type := mkAllWatcher {
  all : allInfo;
  waiting : list (nat * list nat);
  revnos : list (nat * Z);
  stopped : list nat;
  sent : list replyMsg;
  backing : entityId -> fetchResult;
  status : awStatus
}.

Definition newAllWatcher (b : entityId -> fetchResult) : allWatcher :=
  mkAllWatcher newAllInfo [] [] [] [] b Alive.

Fixpoint wt_lookup {A} (w : nat) (t : list (nat * A)) : option A :=
  match t with
  | [] => None
  | (w', v) :: t' => if Nat.eqb w w' then Some v else wt_lookup w t'
  end.

Fixpoint wt_set {A} (w : nat) (v : A) (t : list (nat * A)) : list (nat * A) :=
  match t with
  | [] => [(w, v)]
  | (w', v') :: t' => if Nat.eqb w w' then (w, v) :: t' else (w', v') :: wt_set w v t'
  end.

Definition wt_del {A} (w : nat) (t : list (nat * A)) : list (nat * A) :=
  filter (fun p => negb (Nat.eqb (fst p) w)) t.

Definition cursor (w : nat) (s : allWatcher) : Z :=
  match wt_lookup w (revnos s) with Some r => r | None => 0 end.

Definition pending (w : nat) (s : allWatcher) : list nat :=
  match wt_lookup w (waiting s) with Some l => l | None => [] end.

Definition with_all (s : allWatcher) (a : allInfo) : allWatcher :=
  mkAllWatcher a (waiting s) (revnos s) (stopped s) (sent s) (backing s) (status s).

(** Modelled from the spec: [leave] (§4.3, stop of a watcher): decRef of
    every entry "referenced by this client and not yet delivered as removed
    to it", i.e. [creationRevno <= cursor] and not ([removed] and
    [revno <= cursor]).  [TestRespondResults] needs this condition: after
    both watchers stop, removed entries are gone. *)
Definition leave_entry (cur : Z) (a : allInfo) (p : entityId * entityEntry) : allInfo :=
  let e := snd p in
  if creationRevno e <=? cur then
    if removed e && (revno e <=? cur) then a else decRef (fst p) a
  else a.

Definition leave (cur : Z) (a : allInfo) : allInfo :=
  fold_left (leave_entry cur) (entries a) a.

(** Modelled from the spec: [seen] (§4.2, advancement): over the entries
    changed after the old cursor, a non-removed entry the client had not
    seen gains a reference, a removed entry it had seen loses one. *)
Definition seen_entry (old : Z) (a : allInfo) (p : entityId * entityEntry) : allInfo :=
  let e := snd p in
  if old <? revno e then
    if old <? creationRevno e then (if removed e then a else incRef (fst p) a)
    else if removed e then decRef (fst p) a else a
  else a.

Definition seen (old : Z) (a : allInfo) : allInfo :=
  fold_left (seen_entry old) (entries a) a.

(** Modelled from the spec: [handle(req)] (§4.3 "Client requests").  A
    request of a stopped watcher is answered [false]; a nil channel stops the
    watcher: its pending requests are answered [false], its entry leaves the
    waiting table and its references are released; any other request is
    pushed on top of the watcher's pending list. *)
Definition handle (req : allRequest) (s : allWatcher) : allWatcher :=
  let w := req_w req in
  if existsb (Nat.eqb w) (stopped s) then
    match req_reply req with
    | Some ch =>
        mkAllWatcher (all s) (waiting s) (revnos s) (stopped s)
          (sent s ++ [mkReply w ch false []]) (backing s) (status s)
    | None => s
    end
  else
    match req_reply req with
    | None =>
        mkAllWatcher (leave (cursor w s) (all s)) (wt_del w (waiting s)) (revnos s)
          (w :: stopped s)
          (sent s ++ map (fun ch => mkReply w ch false []) (pending w s))
          (backing s) (status s)
    | Some ch =>
        mkAllWatcher (all s) (wt_set w (ch :: pending w s) (waiting s)) (revnos s)
          (stopped s) (sent s) (backing s) (status s)
    end.

(** Modelled from the spec: one iteration of [respond()] (§4.3): a watcher
    behind [latestRevno] with a non-empty delta set gets it on the top
    pending request, which is popped; its cursor moves to [latestRevno] and
    its references are updated by [seen]. *)
Definition respond_watcher (s : allWatcher) (p : nat * list nat) : allWatcher :=
  let (w, pend) := p in
  match pend with
  | [] => s
  | ch :: rest =>
      let cur := cursor w s in
      if cur <? latestRevno (all s) then
        match changesSince cur (all s) with
        | [] => s
        | changes =>
            mkAllWatcher (seen cur (all s))
              (match rest with [] => wt_del w (waiting s) | _ => wt_set w rest (waiting s) end)
              (wt_set w (latestRevno (all s)) (revnos s)) (stopped s)
              (sent s ++ [mkReply w ch true changes]) (backing s) (status s)
        end
      else s
  end.

Definition respond (s : allWatcher) : allWatcher :=
  fold_left respond_watcher (waiting s) s.

(** Modelled from the spec: [changed] (§4.3 "Backing notifications"). *)
Definition changed (k : entityId) (present : bool) (s : allWatcher)
  : string + allWatcher :=
  if present then
    match backing s k with
    | Fetched i => inr (with_all s (update k i (all s)))
    | NotFound => inr (with_all s (markRemoved k (all s)))
    | FetchError err => inl err
    end
  else inr (with_all s (markRemoved k (all s))).

(** Loop termination: every pending request is answered [false] and the
    final error is latched. *)
Definition terminate (s : allWatcher) (err : option string) : allWatcher :=
  mkAllWatcher (all s) [] (revnos s) (stopped s)
    (sent s ++ flat_map (fun p => map (fun ch => mkReply (fst p) ch false []) (snd p))
                 (waiting s))
    (backing s) (Dead err).

Inductive event : Type :=
| EvChange (k : entityId) (present : bool)
| EvRequest (req : allRequest)
| EvStop.

(** Modelled from the spec: one iteration of the loop (§4.3): each input
    event is followed by [respond()]; a fatal fetch error or a stop ends the
    loop, which then takes no more input. *)
Definition loop_step (s : allWatcher) (ev : event) : allWatcher :=
  match status s with
  | Dead _ => s
  | Alive =>
      match ev with
      | EvChange k present =>
          match changed k present s with
          | inl err => terminate s (Some err)
          | inr s1 => respond s1
          end
      | EvRequest req => respond (handle req s)
      | EvStop => terminate s None
      end
  end.

Inductive nextResult : Type :=
| NextDone (deltas : list Delta) (err : option string)
| NextBlocked.

Definition find_reply (ch : nat) (l : list replyMsg) : option replyMsg :=
  find (fun r => Nat.eqb (reply_chan r) ch) l.

(** Modelled from the spec: [StateWatcher.Next()] (§4.2) of watcher [w] on a
    fresh reply channel [ch].  On a terminated loop it returns the latched
    error, or [errWatcherStopped] for a clean stop; otherwise the request
    goes through the loop and Next returns what is sent on [ch], or stays
    blocked. *)
Definition Next (w ch : nat) (s : allWatcher) : nextResult * allWatcher :=
  match status s with
  | Dead err =>
      (NextDone [] (Some (match err with Some e => e | None => errWatcherStopped end)), s)
  | Alive =>
      let s1 := loop_step s (EvRequest (mkRequest w (Some ch))) in
      match find_reply ch (skipn (List.length (sent s)) (sent s1)) with
      | Some r =>
          if reply_ok r then (NextDone (reply_changes r) None, s1)
          else (NextDone [] (Some errWatcherStopped), s1)
      | None => (NextBlocked, s1)
      end
  end.


(** Modelled from the spec: [StateWatcher.Stop()] (§4.2). *)
Definition watcher_Stop (w : nat) (s : allWatcher) : option string * allWatcher :=
  match status s with
  | Dead err => (err, s)
  | Alive => (None, loop_step s (EvRequest (mkRequest w None)))
  end.

(** Modelled from the spec: [allWatcher.Stop()] (§5 "Cancellation",
    "Fatal-error propagation"): returns the latched error. *)
Definition aw_Stop (s : allWatcher) : option string * allWatcher :=
  match status s with
  | Dead err => (err, s)
  | Alive => (None, terminate s None)
  end.

(** Client-side operations on a running system, with their outputs. *)
Inductive clientOp : Type :=
| OpNext (w ch : nat)
| OpWatcherStop (w : nat)
| OpStop
| OpEvent (ev : event).

Inductive opOutput : Type :=
| OutNext (r : nextResult)
| OutErr (err : option string)
| OutNone.

Definition run_op (s : allWatcher) (op : clientOp) : opOutput * allWatcher :=
  match op with
  | OpNext w ch => let (r, s') := Next w ch s in (OutNext r, s')
  | OpWatcherStop w => let (e, s') := watcher_Stop w s in (OutErr e, s')
  | OpStop => let (e, s') := aw_Stop s in (OutErr e, s')
  | OpEvent ev => (OutNone, loop_step s ev)
  end.

Fixpoint run_ops (ops : list clientOp) (s : allWatcher)
  : list (clientOp * opOutput) * allWatcher :=
  match ops with
  | [] => ([], s)
  | op :: ops' =>
      let (o, s1) := run_op s op in
      let (outs, s2) := run_ops ops' s1 in
      ((op, o) :: outs, s2)
  end.

(** ** Test fixtures

    Machines and scenarios of the source's tests. *)
Definition m0 := MachineInfo "0" "".
Definition m1 := MachineInfo "1" "".
Definition k0 := entityIdForInfo m0.
Definition k1 := entityIdForInfo m1.

Definition m2 := MachineInfo "2" "".
Definition k2 := entityIdForInfo m2.
Definition noBacking : entityId -> fetchResult := fun _ => NotFound.

(** [TestRespondResults] in full: for every pair of request patterns
    (bit [i] of [n] asks for a reply after change [i]), the snapshot left
    after both watchers stop holds machine 2 only, at revno 3 with no
    reference, and [latestRevno = 6]. *)
Definition respondTestChanges : list (allInfo -> allInfo) :=
  [add k0 m0; add k1 m1; add k2 m2; markRemoved k0;
   update k1 (MachineInfo "1" "i-1"); markRemoved k1].

Definition replied (ch : nat) (s : allWatcher) : bool :=
  match find_reply ch (sent s) with Some _ => true | None => false end.

Definition request_if (b : bool) (w ch : nat) (s : allWatcher) (r : option nat)
  : allWatcher * option nat :=
  if b then
    match r with
    | Some _ => (s, r)
    | None => (handle (mkRequest w (Some ch)) s, Some ch)
    end
  else (s, r).

Definition clear_replied (s : allWatcher) (r : option nat) : option nat :=
  match r with Some ch => if replied ch s then None else r | None => None end.

Definition respond_test_step (n0 n1 : nat)
    (st : allWatcher * option nat * option nat) (ic : nat * (allInfo -> allInfo))
  : allWatcher * option nat * option nat :=
  let '(s, r0, r1) := st in
  let '(i, change) := ic in
  let s := with_all s (change (all s)) in
  let b0 := Nat.testbit n0 i in
  let b1 := Nat.testbit n1 i in
  let '(s, r0) := request_if b0 0 (100 + 2 * i) s r0 in
  let '(s, r1) := request_if b1 1 (101 + 2 * i) s r1 in
  if b0 || b1 then
    let s := respond s in (s, clear_replied s r0, clear_replied s r1)
  else (s, r0, r1).

Definition respond_test_run (n0 n1 : nat) : allInfo :=
  let '(s, _, _) :=
    fold_left (respond_test_step n0 n1) (combine (seq 0 6) respondTestChanges)
      (newAllWatcher noBacking, None, None) in
  all (handle (mkRequest 1 None) (handle (mkRequest 0 None) s)).

Definition respond_test_final_ok (a : allInfo) : bool :=
  (latestRevno a =? 6) &&
  match entries a with
  | [(k, e)] =>
      entityId_eqb k k2 && (creationRevno e =? 3) && (revno e =? 3)
      && (refCount e =? 0) && negb (removed e)
  | _ => false
  end.

Definition revno_lt (p q : entityId * entityEntry) : Prop :=
  revno (snd p) < revno (snd q).

(** Invariants 1 and the bound on [latestRevno] (§3). *)
Definition snap_inv (a : allInfo) : Prop :=
  StronglySorted revno_lt (entries a)
  /\ Forall (fun p => revno (snd p) <= latestRevno a) (entries a)
  /\ 0 <= latestRevno a.

(** The entry left by [decRef]: [None] when it is deleted. *)
Definition decRef_entry (e : entityEntry) : option entityEntry :=
  if (refCount e - 1 =? 0) && removed e then None
  else Some (with_refCount e (refCount e - 1)).

(** What [leave] does to one entry. *)
Definition leave_result (cur : Z) (e : entityEntry) : option entityEntry :=
  if (creationRevno e <=? cur) && negb (removed e && (revno e <=? cur))
  then decRef_entry e else Some e.


(** What an operation returns once the loop has terminated. *)
Definition dead_output (err : option string) (op : clientOp) : opOutput :=
  match op with
  | OpNext _ _ =>
      OutNext (NextDone [] (Some (match err with Some e => e | None => errWatcherStopped end)))
  | OpWatcherStop _ => OutErr err
  | OpStop => OutErr err
  | OpEvent _ => OutNone
  end.

(** Scenario of [TestHandle]: watcher 0 has two pending requests, watcher 1
    one. *)
Definition handle_test_state : allWatcher :=
  handle (mkRequest 1%nat (Some 102%nat))
    (handle (mkRequest 0%nat (Some 101%nat))
       (handle (mkRequest 0%nat (Some 100%nat)) (newAllWatcher noBacking))).

(** Two watchers have both received machine 0 (two references); machine 0 is
    then marked removed, and neither has been delivered the removal. *)
Definition stop_scenario : allWatcher :=
  let s := with_all (newAllWatcher noBacking) (add k0 m0 newAllInfo) in
  let s := respond (handle (mkRequest 0%nat (Some 100%nat)) s) in
  let s := respond (handle (mkRequest 1%nat (Some 101%nat)) s) in
  with_all s (markRemoved k0 (all s)).

(** Scenario of [TestStateWatcherStopBecauseAllWatcherError]: the backing
    fails every fetch with "some error". *)
Definition failing_backing : entityId -> fetchResult := fun _ => FetchError "some error".

(** Scenario of [TestRespondMultiple] before its third [respond()]: watcher 0
    waits on channel 101, watcher 1 on channels 103 (newest) and 102. *)
Definition respond_multiple_state : allWatcher :=
  let s := with_all (newAllWatcher noBacking) (add k0 m0 newAllInfo) in
  let s := respond (handle (mkRequest 0%nat (Some 100%nat)) s) in
  let s := respond (handle (mkRequest 0%nat (Some 101%nat)) s) in
  handle (mkRequest 1%nat (Some 103%nat)) (handle (mkRequest 1%nat (Some 102%nat)) s).

(** ** The test backing and the test helpers of the source *)

(** A Go map keyed by [entityId] (a [map[entityId]T]) as an association
    list with one binding per key: [m[k] = v] replaces the binding in place
    or appends a new one, [delete(m, k)] drops it. *)
Fixpoint elookup {A} (k : entityId) (m : list (entityId * A)) : option A :=
  match m with
  | [] => None
  | (k', v) :: m' => if entityId_eqb k k' then Some v else elookup k m'
  end.

Fixpoint eset {A} (k : entityId) (v : A) (m : list (entityId * A))
  : list (entityId * A) :=
  match m with
  | [] => [(k, v)]
  | (k', v') :: m' =>
      if entityId_eqb k k' then (k', v) :: m' else (k', v') :: eset k v m'
  end.

Definition edel {A} (k : entityId) (m : list (entityId * A)) : list (entityId * A) :=
  filter (fun p => negb (entityId_eqb (fst p) k)) m.

(** watcher.Change *)
Record Change : Type := mkChange { C : string; Id : string; Revno : Z }.

(** allWatcherTestBacking (utils.go 1060-1066), without its mutex: the
    fetch error ([None] for nil), the entities, the change channel ([None]
    for nil) and the transaction revno. *)
Record allWatcherTestBacking : Type := mkTestBacking {
  fetchErr : option string;
  entities : list (entityId * EntityInfo);
  watchc : option nat;
  txnRevno : Z
}.

(** newTestBacking (utils.go 1068-1076). *)
Definition newTestBacking (initial : list EntityInfo) : allWatcherTestBacking :=
  mkTestBacking None
    (fold_left (fun m i => eset (entityIdForInfo i) i m) initial []) None 0.

(** allWatcherTestBacking.fetch (utils.go 1078-1088); [NotFound] is
    [mgo.ErrNotFound]. *)
Definition fetch (b : allWatcherTestBacking) (k : entityId) : fetchResult :=
  match fetchErr b with
  | Some err => FetchError err
  | None =>
      match elookup k (entities b) with
      | Some i => Fetched i
      | None => NotFound
      end
  end.

(** Channel identity, [None] being the nil channel: Go's [==] on channels. *)
Definition chan_eqb (c c' : option nat) : bool :=
  match c, c' with
  | Some n, Some n' => Nat.eqb n n'
  | None, None => true
  | _, _ => false
  end.

(** allWatcherTestBacking.watch (utils.go 1094-1101), on a channel [c]
    ([None] for nil); [None] as result is the panic "test backing can only
    watch once". *)
Definition watch (c : option nat) (b : allWatcherTestBacking)
  : option allWatcherTestBacking :=
  match watchc b with
  | Some _ => None
  | None => Some (mkTestBacking (fetchErr b) (entities b) c (txnRevno b))
  end.

(** allWatcherTestBacking.unwatch (utils.go 1103-1110); [None] as result is
    the panic "unwatching wrong channel". *)
Definition unwatch (c : option nat) (b : allWatcherTestBacking)
  : option allWatcherTestBacking :=
  if negb (chan_eqb c (watchc b)) then None
  else Some (mkTestBacking (fetchErr b) (entities b) None (txnRevno b)).

(** allWatcherTestBacking.getAll (utils.go 1112-1119): [all.update] of
    every entity, in the order the [range] over the map visits them; it
    always returns nil.  Go leaves that order unspecified: [getAll_visit]
    takes it as a list [visit], a permutation of the map's bindings. *)
Definition getAll_visit (visit : list (entityId * EntityInfo)) (a : allInfo) : allInfo :=
  fold_left (fun a p => update (fst p) (snd p) a) visit a.

(** allWatcherTestBacking.updateEntity (utils.go 1121-1134): the new
    backing and the changes sent on [watchc]. *)
Definition updateEntity (i : EntityInfo) (b : allWatcherTestBacking)
  : allWatcherTestBacking * list Change :=
  let k := entityIdForInfo i in
  let r := txnRevno b + 1 in
  (mkTestBacking (fetchErr b) (eset k i (entities b)) (watchc b) r,
   match watchc b with
   | Some _ => [mkChange (collection k) (id k) r]
   | None => []
   end).

(** allWatcherTestBacking.setFetchError (utils.go 1136-1140). *)
Definition setFetchError (err : option string) (b : allWatcherTestBacking)
  : allWatcherTestBacking :=
  mkTestBacking err (entities b) (watchc b) (txnRevno b).

(** allWatcherTestBacking.deleteEntity (utils.go 1142-1154). *)
Definition deleteEntity (k : entityId) (b : allWatcherTestBacking)
  : allWatcherTestBacking * list Change :=
  let r := txnRevno b + 1 in
  (mkTestBacking (fetchErr b) (edel k (entities b)) (watchc b) r,
   match watchc b with
   | Some _ => [mkChange (collection k) (id k) (-1)]
   | None => []
   end).

(** A test's sequence of backing mutations, with the changes sent in
    order. *)
Inductive mutation : Type :=
| MUpdate (i : EntityInfo)
| MDelete (k : entityId).

(** The entity a mutation changes. *)
Definition mutation_key (m : mutation) : entityId :=
  match m with
  | MUpdate i => entityIdForInfo i
  | MDelete k => k
  end.

Definition mutate (m : mutation) (b : allWatcherTestBacking)
  : allWatcherTestBacking * list Change :=
  match m with
  | MUpdate i => updateEntity i b
  | MDelete k => deleteEntity k b
  end.

Fixpoint mutateAll (ms : list mutation) (b : allWatcherTestBacking)
  : allWatcherTestBacking * list Change :=
  match ms with
  | [] => (b, [])
  | m :: ms' =>
      let (b1, c1) := mutate m b in
      let (b2, c2) := mutateAll ms' b1 in
      (b2, c1 ++ c2)
  end.

(** deltaMap (utils.go 979-993), from a given map; [None] is the panic
    "mentioned twice in delta set"; a removed entity maps to nil
    ([None]). *)
Fixpoint deltaMap_from (m : list (entityId * option EntityInfo)) (ds : list Delta)
  : option (list (entityId * option EntityInfo)) :=
  match ds with
  | [] => Some m
  | d :: ds' =>
      let k := entityIdForInfo (Entity d) in
      match elookup k m with
      | Some _ => None
      | None => deltaMap_from (eset k (if Removed d then None else Some (Entity d)) m) ds'
      end
  end.

Definition deltaMap (ds : list Delta) := deltaMap_from [] ds.

(** checkDeltasEqual (utils.go 975-977): both maps are built without a
    panic and are DeepEqual, i.e. bind the same keys to the same values. *)
Definition checkDeltasEqual (d0 d1 : list Delta) : Prop :=
  match deltaMap d0, deltaMap d1 with
  | Some m0, Some m1 => forall k, elookup k m0 = elookup k m1
  | _, _ => False
  end.

(** watcherState.update (utils.go 1000-1012); [None] is the panic "removed
    when it wasn't there". *)
Fixpoint watcherState_update (changes : list Delta) (s : list (entityId * Delta))
  : option (list (entityId * Delta)) :=
  match changes with
  | [] => Some s
  | d :: ds =>
      let k := entityIdForInfo (Entity d) in
      if Removed d then
        match elookup k s with
        | None => None
        | Some _ => watcherState_update ds (edel k s)
        end
      else watcherState_update ds (eset k d s)
  end.

(** The [currentEntities] map of watcherState.check (utils.go 1016-1025):
    every entry of the snapshot not marked removed, as a non-removed
    delta. *)
Definition currentEntities (a : allInfo) : list (entityId * Delta) :=
  map (fun p => (fst p, mkDelta false (info (snd p))))
    (filter (fun p => negb (removed (snd p))) (entries a)).

(** watcherState.check: the client's view is DeepEqual to
    [currentEntities]. *)
Definition watcherState_check (s : list (entityId * Delta)) (a : allInfo) : Prop :=
  forall k, elookup k s = elookup k (currentEntities a).

(** entityInfoSlice.Less (utils.go 943-952) on the two compared elements:
    by kind, then by id (every id here is a string). *)
Definition Less (a b : EntityInfo) : bool :=
  if negb (String.eqb (EntityKind a) (EntityKind b))
  then String.ltb (EntityKind a) (EntityKind b)
  else String.ltb (EntityId a) (EntityId b).

(** The entries [getAll] adds to a snapshot that holds none of the
    backing's entities: stamped [r + 1], [r + 2], ... in iteration order. *)
Fixpoint numbered (r : Z) (l : list (entityId * EntityInfo))
  : list (entityId * entityEntry) :=
  match l with
  | [] => []
  | (k, i) :: l' => (k, mkEntry (r + 1) (r + 1) 0 false i) :: numbered (r + 1) l'
  end.

(** Distinct keys, and stamps from 1 on, in a snapshot. *)
Definition keys_inv (a : allInfo) : Prop :=
  NoDup (map fst (entries a))
  /\ Forall (fun p => 1 <= creationRevno (snd p) /\ 1 <= revno (snd p)) (entries a).

(** ** The tests of the source, replayed on the model *)

Example test_mark_removed_zero_ref :
  markRemoved k0 (add k0 m0 newAllInfo) = mkAllInfo 2 [].
Proof. reflexivity. Qed.

Example test_mark_removed_already_marked :
  let a := incRef k0 (add k1 m1 (add k0 m0 newAllInfo)) in
  let a := markRemoved k0 a in
  let a := update k1 (MachineInfo "1" "i-1") a in
  markRemoved k0 a =
  mkAllInfo 4 [(k0, mkEntry 1 3 1 true m0); (k1, mkEntry 2 4 0 false (MachineInfo "1" "i-1"))].
Proof. reflexivity. Qed.

Example test_changes_since :
  let a := add (entityIdForInfo (MachineInfo "2" "")) (MachineInfo "2" "")
             (add k1 m1 (add k0 m0 newAllInfo)) in
  let a := update k1 (MachineInfo "1" "foo") a in
  let a := markRemoved k0 (incRef k0 a) in
  changesSince 0 a = [mkDelta false (MachineInfo "2" ""); mkDelta false (MachineInfo "1" "foo")]
  /\ changesSince 3 a = [mkDelta false (MachineInfo "1" "foo"); mkDelta true m0]
  /\ changesSince 4 a = [mkDelta true m0]
  /\ changesSince (-1) (add k1 m1 (add k0 m0 newAllInfo)) = [mkDelta false m0; mkDelta false m1]
  /\ changesSince 99 a = [].
Proof. repeat split; reflexivity. Qed.

(** [TestHandle]. *)
Example test_handle :
  let s := handle (mkRequest 0%nat (Some 100%nat)) (newAllWatcher noBacking) in
  let s := handle (mkRequest 0%nat (Some 101%nat)) s in
  let s := handle (mkRequest 1%nat (Some 102%nat)) s in
  waiting s = [(0%nat, [101%nat; 100%nat]); (1%nat, [102%nat])]
  /\ (let s := handle (mkRequest 0%nat None) s in
      waiting s = [(1%nat, [102%nat])]
      /\ sent s = [mkReply 0%nat 101%nat false []; mkReply 0%nat 100%nat false []]
      /\ (let s := handle (mkRequest 1%nat None) s in
          waiting s = [] /\ List.length (sent s) = 3%nat)).
Proof. vm_compute; repeat split; reflexivity. Qed.

(** [TestRespondMultiple], up to the reply to the later request of the
    second watcher. *)
Example test_respond_multiple :
  let s := with_all (newAllWatcher noBacking) (add k0 m0 newAllInfo) in
  let s := respond (handle (mkRequest 0%nat (Some 100%nat)) s) in
  sent s = [mkReply 0%nat 100%nat true [mkDelta false m0]] /\ waiting s = []
  /\ (let s := respond (handle (mkRequest 0%nat (Some 101%nat)) s) in
      List.length (sent s) = 1%nat
      /\ (let s := handle (mkRequest 1%nat (Some 102%nat)) s in
          let s := handle (mkRequest 1%nat (Some 103%nat)) s in
          waiting s = [(0%nat, [101%nat]); (1%nat, [103%nat; 102%nat])]
          /\ (let s := respond s in
              skipn 1 (sent s) = [mkReply 1%nat 103%nat true [mkDelta false m0]]
              /\ waiting s = [(0%nat, [101%nat]); (1%nat, [102%nat])]))).
Proof. vm_compute; repeat split; reflexivity. Qed.

(** One run of [TestRespondResults]: watcher 0 asks after the first change
    only; both watchers then stop. *)
Example test_respond_results_one :
  let s := with_all (newAllWatcher noBacking) (add k0 m0 newAllInfo) in
  let s := respond (handle (mkRequest 0%nat (Some 100%nat)) s) in
  let s := with_all s (add k1 m1 (all s)) in
  let s := with_all s (add k2 m2 (all s)) in
  let s := with_all s (markRemoved k0 (all s)) in
  let s := with_all s (update k1 (MachineInfo "1" "i-1") (all s)) in
  let s := with_all s (markRemoved k1 (all s)) in
  let s := handle (mkRequest 1%nat None) (handle (mkRequest 0%nat None) s) in
  all s = mkAllInfo 6 [(k2, mkEntry 3 3 0 false m2)].
Proof. vm_compute; reflexivity. Qed.

Example test_respond_results :
  forallb (fun n0 => forallb (fun n1 => respond_test_final_ok (respond_test_run n0 n1))
                       (seq 0 64)) (seq 0 64) = true.
Proof. vm_compute; reflexivity. Qed.

(** The outputs of [Next()] and [Stop()] in that scenario. *)
Example test_fetch_error_outputs :
  fst (run_ops [OpNext 0%nat 5%nat; OpStop]
         (loop_step (newAllWatcher failing_backing) (EvChange k1 true)))
  = [(OpNext 0%nat 5%nat, OutNext (NextDone [] (Some "some error"%string)));
     (OpStop, OutErr (Some "some error"%string))].
Proof. vm_compute; reflexivity. Qed.

(** ** Snapshot invariants *)

Lemma SS_filter {A} (R : A -> A -> Prop) (f : A -> bool) (l : list A) :
  StronglySorted R l -> StronglySorted R (filter f l).
Proof.
  induction 1 as [|x l Hs IH Hf]; simpl; [constructor|].
  destruct (f x); [|exact IH].
  constructor; [exact IH|].
  rewrite Forall_forall in *; intros y Hy.
  apply filter_In in Hy; apply Hf, Hy.
Qed.

Lemma SS_snoc {A} (R : A -> A -> Prop) (l : list A) (x : A) :
  StronglySorted R l -> Forall (fun y => R y x) l -> StronglySorted R (l ++ [x]).
Proof.
  induction 1 as [|y l Hs IH Hf]; simpl; intros Hx.
  - repeat constructor.
  - inversion Hx; subst; constructor; [auto|].
    apply Forall_app; split; [exact Hf|]; constructor; auto.
Qed.

Lemma modify_key_In k f l p :
  In p (modify_key k f l) ->
  In p l \/ exists q, In q l /\ p = (fst q, f (snd q)).
Proof.
  induction l as [|[k' e] l IH]; simpl; [tauto|].
  destruct (entityId_eqb k k'); simpl.
  - intros [<-|H]; [right; exists (k', e); simpl; auto | left; auto].
  - intros [<-|H]; [left; auto|].
    destruct (IH H) as [H'|[q [Hq ->]]]; [left; auto | right; exists q; auto].
Qed.

(** A change that keeps every entry's [revno] keeps the order. *)
Lemma SS_modify_key k f l :
  (forall e, revno (f e) = revno e) ->
  StronglySorted revno_lt l -> StronglySorted revno_lt (modify_key k f l).
Proof.
  intros Hf; induction 1 as [|[k' e] l Hs IH Hl]; simpl; [constructor|].
  destruct (entityId_eqb k k'); constructor; auto.
  - revert Hl; unfold revno_lt; simpl; rewrite Hf; auto.
  - rewrite Forall_forall in *; intros p Hp.
    destruct (modify_key_In _ _ _ _ Hp) as [H|[q [Hq ->]]].
    + apply Hl, H.
    + unfold revno_lt; simpl; rewrite Hf; apply (Hl q Hq).
Qed.

Lemma Forall_modify_key k f l (P : entityId * entityEntry -> Prop) :
  (forall p, P p -> P (fst p, f (snd p))) ->
  Forall P l -> Forall P (modify_key k f l).
Proof.
  intros Hf HP; rewrite Forall_forall in *; intros p Hp.
  destruct (modify_key_In _ _ _ _ Hp) as [H|[q [Hq ->]]]; auto.
Qed.

Lemma Forall_remove_key (P : entityId * entityEntry -> Prop) k l :
  Forall P l -> Forall P (remove_key k l).
Proof.
  intros H; rewrite Forall_forall in *; intros p Hp.
  apply filter_In in Hp; apply H, Hp.
Qed.

Lemma Forall_weaken_revno (l : list (entityId * entityEntry)) (r r' : Z) :
  r <= r' -> Forall (fun p => revno (snd p) <= r) l ->
  Forall (fun p => revno (snd p) <= r') l.
Proof.
  intros Hr H; rewrite Forall_forall in *; intros p Hp; specialize (H p Hp); lia.
Qed.

Lemma Forall_lt_succ (l : list (entityId * entityEntry)) (r : Z) (x : entityId * entityEntry) :
  revno (snd x) = r + 1 -> Forall (fun p => revno (snd p) <= r) l ->
  Forall (fun p => revno_lt p x) l.
Proof.
  intros Hx H; rewrite Forall_forall in *; intros p Hp; specialize (H p Hp).
  unfold revno_lt; lia.
Qed.

Ltac snoc_inv a Hs Hb :=
  unfold snap_inv; simpl; split;
  [ apply SS_snoc;
    [ try apply SS_filter; exact Hs
    | apply Forall_lt_succ with (r := latestRevno a); [reflexivity|];
      try apply Forall_remove_key; exact Hb ]
  | split;
    [ apply Forall_app; split;
      [ apply Forall_weaken_revno with (r := latestRevno a); [lia|];
        try apply Forall_remove_key; exact Hb
      | constructor; [simpl; lia | constructor] ]
    | lia ] ].

Lemma snap_step_inv a a' : snap_inv a -> snap_step a a' -> snap_inv a'.
Proof.
  intros (Hs & Hb & H0) Hstep; destruct Hstep as [k i a _|k i a|k a|k a|k a|k a].
  - unfold add; snoc_inv a Hs Hb.
  - unfold update; destruct (lookup k (entries a)); snoc_inv a Hs Hb.
  - unfold markRemoved; destruct (lookup k (entries a)) as [e|]; [|repeat split; auto].
    destruct (removed e); [repeat split; auto|].
    destruct (refCount e =? 0); [|snoc_inv a Hs Hb].
    repeat split; simpl; [apply SS_filter; exact Hs| |lia].
    apply Forall_weaken_revno with (r := latestRevno a); [lia|].
    apply Forall_remove_key; exact Hb.
  - repeat split; simpl; [apply SS_filter; exact Hs| apply Forall_remove_key; exact Hb| lia].
  - unfold decRef; destruct (lookup k (entries a)) as [e|]; [|repeat split; auto].
    destruct ((refCount e - 1 =? 0) && removed e).
    + repeat split; simpl; [apply SS_filter; exact Hs| apply Forall_remove_key; exact Hb| lia].
    + repeat split; simpl; auto.
      * apply SS_modify_key; auto.
      * apply Forall_modify_key; auto.
  - unfold incRef; destruct (lookup k (entries a)) as [e|]; [|repeat split; auto].
    repeat split; simpl; auto.
    + apply SS_modify_key; auto.
    + apply Forall_modify_key; auto.
Qed.

Lemma snap_step_mono a a' : snap_step a a' -> latestRevno a <= latestRevno a'.
Proof.
  destruct 1 as [k i a _|k i a|k a|k a|k a|k a]; simpl.
  - lia.
  - unfold update; destruct (lookup k (entries a)); simpl; lia.
  - unfold markRemoved; destruct (lookup k (entries a)) as [e|]; [|lia].
    destruct (removed e); [lia|]; destruct (refCount e =? 0); simpl; lia.
  - lia.
  - unfold decRef; destruct (lookup k (entries a)) as [e|]; [|lia].
    destruct ((refCount e - 1 =? 0) && removed e); simpl; lia.
  - unfold incRef; destruct (lookup k (entries a)); simpl; lia.
Qed.

Lemma reachable_inv a : reachable a -> snap_inv a.
Proof.
  induction 1 as [|a a' _ IH Hstep].
  - repeat split; simpl; [constructor|constructor|lia].
  - eapply snap_step_inv; eauto.
Qed.

(** ** Lookup through the list operations *)

Lemma entityId_eqb_neq k k' : k' <> k -> entityId_eqb k' k = false.
Proof.
  intros H; destruct (entityId_eqb k' k) eqn:E; auto.
  apply entityId_eqb_spec in E; contradiction.
Qed.

Lemma lookup_app k l1 l2 :
  lookup k (l1 ++ l2) = match lookup k l1 with Some e => Some e | None => lookup k l2 end.
Proof.
  induction l1 as [|[k' e] l1 IH]; simpl; auto.
  destruct (entityId_eqb k k'); auto.
Qed.

Lemma lookup_remove_key_same k l : lookup k (remove_key k l) = None.
Proof.
  induction l as [|[k' e] l IH]; simpl; auto.
  destruct (entityId_eqb k' k) eqn:E; simpl; auto.
  rewrite entityId_eqb_neq; auto.
  intros ->; rewrite entityId_eqb_refl in E; discriminate.
Qed.

Lemma lookup_remove_key_other k k' l :
  k' <> k -> lookup k' (remove_key k l) = lookup k' l.
Proof.
  intros Hne; induction l as [|[k'' e] l IH]; simpl; auto.
  destruct (entityId_eqb k'' k) eqn:E; simpl.
  - apply entityId_eqb_spec in E; subst; rewrite entityId_eqb_neq; auto.
  - rewrite IH; reflexivity.
Qed.

Lemma lookup_modify_key_same k f l :
  lookup k (modify_key k f l) = option_map f (lookup k l).
Proof.
  induction l as [|[k' e] l IH]; simpl; auto.
  destruct (entityId_eqb k k') eqn:E; simpl; rewrite ?E; auto.
Qed.

Lemma lookup_modify_key_other k k' f l :
  k' <> k -> lookup k' (modify_key k f l) = lookup k' l.
Proof.
  intros Hne; induction l as [|[k'' e] l IH]; simpl; auto.
  destruct (entityId_eqb k k'') eqn:E; simpl.
  - apply entityId_eqb_spec in E; subst; rewrite entityId_eqb_neq; auto.
  - rewrite IH; reflexivity.
Qed.

(** ** changesSince on an ordered sequence *)

Lemma SS_map_snd l :
  StronglySorted revno_lt l ->
  StronglySorted (fun x y => revno x < revno y) (map snd l).
Proof.
  induction 1 as [|p l Hs IH Hf]; simpl; constructor; auto.
  rewrite Forall_forall in *; intros y Hy.
  apply in_map_iff in Hy; destruct Hy as [q [<- Hq]]; apply Hf, Hq.
Qed.

Lemma filter_all {A} (f : A -> bool) l :
  Forall (fun x => f x = true) l -> filter f l = l.
Proof. induction 1 as [|x l Hx _ IH]; simpl; rewrite ?Hx, ?IH; auto. Qed.

Lemma filter_filter' {A} (f g : A -> bool) l :
  filter f (filter g l) = filter (fun x => g x && f x) l.
Proof.
  induction l as [|x l IH]; simpl; auto.
  destruct (g x); simpl; [destruct (f x)|]; simpl; rewrite ?IH; auto.
Qed.

Lemma skip_seen_sorted c l :
  StronglySorted (fun x y => revno x < revno y) l ->
  skip_seen c l = filter (fun e => c <? revno e) l.
Proof.
  induction 1 as [|e l Hs IH Hf]; simpl; auto.
  destruct (revno e <=? c) eqn:E.
  - rewrite IH; replace (c <? revno e) with false; auto.
    symmetry; apply Z.ltb_ge, Z.leb_le, E.
  - apply Z.leb_gt in E; replace (c <? revno e) with true by (symmetry; apply Z.ltb_lt; lia).
    f_equal; symmetry; apply filter_all.
    rewrite Forall_forall in *; intros y Hy; apply Z.ltb_lt; specialize (Hf y Hy); lia.
Qed.

(** ** decRef, leave and the waiting table *)

Lemma decRef_lookup_same a k e :
  lookup k (entries a) = Some e -> lookup k (entries (decRef k a)) = decRef_entry e.
Proof.
  intros Hl; unfold decRef, decRef_entry; rewrite Hl.
  destruct ((refCount e - 1 =? 0) && removed e); simpl.
  - apply lookup_remove_key_same.
  - rewrite lookup_modify_key_same, Hl; reflexivity.
Qed.

Lemma decRef_lookup_other a k k' :
  k' <> k -> lookup k' (entries (decRef k a)) = lookup k' (entries a).
Proof.
  intros Hne; unfold decRef; destruct (lookup k (entries a)) as [e|]; auto.
  destruct ((refCount e - 1 =? 0) && removed e); simpl.
  - apply lookup_remove_key_other, Hne.
  - apply lookup_modify_key_other, Hne.
Qed.

Lemma decRef_latest a k : latestRevno (decRef k a) = latestRevno a.
Proof.
  unfold decRef; destruct (lookup k (entries a)) as [e|]; auto.
  destruct ((refCount e - 1 =? 0) && removed e); reflexivity.
Qed.

Lemma leave_entry_same cur a p :
  lookup (fst p) (entries a) = Some (snd p) ->
  lookup (fst p) (entries (leave_entry cur a p)) = leave_result cur (snd p).
Proof.
  intros Hl; unfold leave_entry, leave_result.
  destruct (creationRevno (snd p) <=? cur); simpl; auto.
  destruct (removed (snd p) && (revno (snd p) <=? cur)); simpl; auto.
  apply decRef_lookup_same, Hl.
Qed.

Lemma leave_entry_other cur a p k :
  k <> fst p -> lookup k (entries (leave_entry cur a p)) = lookup k (entries a).
Proof.
  intros Hne; unfold leave_entry.
  destruct (creationRevno (snd p) <=? cur); auto.
  destruct (removed (snd p) && (revno (snd p) <=? cur)); auto.
  apply decRef_lookup_other, Hne.
Qed.

Lemma lookup_In k l e : lookup k l = Some e -> In (k, e) l.
Proof.
  induction l as [|[k' e'] l IH]; simpl; [discriminate|].
  destruct (entityId_eqb k k') eqn:E.
  - apply entityId_eqb_spec in E; intros H; inversion H; subst; left; reflexivity.
  - intros H; right; apply IH, H.
Qed.

Lemma lookup_None_notin k l : ~ In k (map fst l) -> lookup k l = None.
Proof.
  induction l as [|[k' e'] l IH]; simpl; auto.
  intros Hn; rewrite entityId_eqb_neq by (intros ->; apply Hn; left; reflexivity).
  apply IH; intros H; apply Hn; right; exact H.
Qed.

Lemma NoDup_lookup l p : NoDup (map fst l) -> In p l -> lookup (fst p) l = Some (snd p).
Proof.
  induction l as [|[k e] l IH]; simpl; [tauto|].
  intros Hnd; inversion Hnd as [|? ? Hn Hnd']; subst.
  intros [<-|Hp]; simpl.
  - rewrite entityId_eqb_refl; reflexivity.
  - rewrite entityId_eqb_neq; [apply IH; auto|].
    intros Heq; apply Hn; rewrite <- Heq; apply in_map, Hp.
Qed.

Lemma leave_fold cur l a k :
  NoDup (map fst l) ->
  (forall p, In p l -> lookup (fst p) (entries a) = Some (snd p)) ->
  lookup k (entries (fold_left (leave_entry cur) l a))
  = match lookup k l with
    | Some e => leave_result cur e
    | None => lookup k (entries a)
    end.
Proof.
  revert a; induction l as [|[k' e'] l IH]; intros a Hnd Hall; simpl; auto.
  inversion Hnd as [|? ? Hn Hnd']; subst.
  rewrite IH; auto.
  - destruct (entityId_eqb k k') eqn:E.
    + apply entityId_eqb_spec in E; subst.
      rewrite lookup_None_notin by exact Hn.
      apply (leave_entry_same cur a (k', e')), (Hall (k', e')); left; reflexivity.
    + destruct (lookup k l); auto.
      apply leave_entry_other; simpl; intros ->; rewrite entityId_eqb_refl in E; discriminate.
  - intros p Hp; rewrite leave_entry_other.
    + apply Hall; right; exact Hp.
    + simpl; intros Heq; apply Hn; rewrite <- Heq; apply in_map, Hp.
Qed.

Lemma wt_lookup_del_same {A} w (t : list (nat * A)) : wt_lookup w (wt_del w t) = None.
Proof.
  induction t as [|[w' v] t IH]; simpl; auto.
  destruct (Nat.eqb w' w) eqn:E; simpl; auto.
  replace (Nat.eqb w w') with false; auto.
  symmetry; apply Nat.eqb_neq; apply Nat.eqb_neq in E; auto.
Qed.

Lemma wt_lookup_del_other {A} w w' (t : list (nat * A)) :
  w' <> w -> wt_lookup w' (wt_del w t) = wt_lookup w' t.
Proof.
  intros Hne; induction t as [|[w'' v] t IH]; simpl; auto.
  destruct (Nat.eqb w'' w) eqn:E; simpl.
  - apply Nat.eqb_eq in E; subst.
    replace (Nat.eqb w' w) with false by (symmetry; apply Nat.eqb_neq; auto); exact IH.
  - rewrite IH; reflexivity.
Qed.

Lemma wt_lookup_set_same {A} w (v : A) t : wt_lookup w (wt_set w v t) = Some v.
Proof.
  induction t as [|[w' v'] t IH]; simpl; [rewrite Nat.eqb_refl; auto|].
  destruct (Nat.eqb w w') eqn:E; simpl; [rewrite Nat.eqb_refl; auto|].
  rewrite E; exact IH.
Qed.

Lemma wt_lookup_set_other {A} w w' (v : A) t :
  w' <> w -> wt_lookup w' (wt_set w v t) = wt_lookup w' t.
Proof.
  intros Hne; induction t as [|[w'' v'] t IH]; simpl.
  - replace (Nat.eqb w' w) with false by (symmetry; apply Nat.eqb_neq; auto); reflexivity.
  - destruct (Nat.eqb w w'') eqn:E; simpl.
    + apply Nat.eqb_eq in E; subst.
      replace (Nat.eqb w' w'') with false by (symmetry; apply Nat.eqb_neq; auto); reflexivity.
    + rewrite IH; reflexivity.
Qed.

Lemma existsb_eqb_false w l : ~ In w l -> existsb (Nat.eqb w) l = false.
Proof.
  intros Hn; apply Bool.not_true_iff_false; intros H.
  apply existsb_exists in H; destruct H as [x [Hx E]].
  apply Nat.eqb_eq in E; subst; contradiction.
Qed.

(** ** respond: framing *)

Lemma respond_watcher_frame s p :
  status (respond_watcher s p) = status s
  /\ stopped (respond_watcher s p) = stopped s
  /\ exists extra, sent (respond_watcher s p) = sent s ++ extra
                   /\ Forall (fun r => reply_w r = fst p) extra.
Proof.
  destruct p as [w pend]; simpl; destruct pend as [|ch rest].
  { repeat split; auto; exists []; rewrite app_nil_r; auto. }
  destruct (cursor w s <? latestRevno (all s)).
  2: { repeat split; auto; exists []; rewrite app_nil_r; auto. }
  destruct (changesSince (cursor w s) (all s)) as [|d ds].
  { repeat split; auto; exists []; rewrite app_nil_r; auto. }
  repeat split; simpl; auto.
  eexists; split; [reflexivity|]; repeat constructor.
Qed.

Lemma respond_watcher_other s w' pend w :
  w <> w' ->
  wt_lookup w (waiting (respond_watcher s (w', pend))) = wt_lookup w (waiting s)
  /\ cursor w (respond_watcher s (w', pend)) = cursor w s.
Proof.
  intros Hne; simpl; destruct pend as [|ch rest]; auto.
  destruct (cursor w' s <? latestRevno (all s)); auto.
  destruct (changesSince (cursor w' s) (all s)) as [|d ds]; auto.
  unfold cursor; simpl; split.
  - destruct rest; [apply wt_lookup_del_other | apply wt_lookup_set_other]; auto.
  - rewrite wt_lookup_set_other; auto.
Qed.

Lemma respond_fold_frame l s :
  status (fold_left respond_watcher l s) = status s
  /\ stopped (fold_left respond_watcher l s) = stopped s
  /\ exists extra, sent (fold_left respond_watcher l s) = sent s ++ extra
                   /\ Forall (fun r => In (reply_w r) (map fst l)) extra.
Proof.
  revert s; induction l as [|p l IH]; intros s; simpl.
  { repeat split; auto; exists []; rewrite app_nil_r; auto. }
  destruct (respond_watcher_frame s p) as (H1 & H2 & extra1 & H3 & H4).
  destruct (IH (respond_watcher s p)) as (H1' & H2' & extra2 & H3' & H4').
  split; [congruence|split; [congruence|]].
  exists (extra1 ++ extra2); split; [rewrite H3', H3, app_assoc; reflexivity|].
  apply Forall_app; split.
  - revert H4; apply Forall_impl; intros r ->; left; reflexivity.
  - revert H4'; apply Forall_impl; intros r Hr; right; exact Hr.
Qed.

Lemma respond_fold_other l s w :
  ~ In w (map fst l) ->
  wt_lookup w (waiting (fold_left respond_watcher l s)) = wt_lookup w (waiting s)
  /\ cursor w (fold_left respond_watcher l s) = cursor w s.
Proof.
  revert s; induction l as [|[w' pend] l IH]; intros s Hn; cbn [fold_left]; auto.
  destruct (IH (respond_watcher s (w', pend))) as [H1 H2].
  { intros H; apply Hn; right; exact H. }
  destruct (respond_watcher_other s w' pend w) as [H3 H4].
  { intros ->; apply Hn; left; reflexivity. }
  split; congruence.
Qed.

Lemma wt_lookup_app_notin {A} w (v : A) pre post :
  ~ In w (map fst pre) -> wt_lookup w (pre ++ (w, v) :: post) = Some v.
Proof.
  induction pre as [|[w' v'] pre IH]; simpl; intros Hn.
  - rewrite Nat.eqb_refl; reflexivity.
  - replace (Nat.eqb w w') with false by (symmetry; apply Nat.eqb_neq; intros ->; tauto).
    apply IH; tauto.
Qed.

Lemma filter_reply_w_notin (w : nat) (l : list (nat * list nat)) (x : list replyMsg) :
  ~ In w (map fst l) -> Forall (fun r => In (reply_w r) (map fst l)) x ->
  filter (fun r => Nat.eqb (reply_w r) w) x = [].
Proof.
  intros Hn HF; induction HF as [|r x Hr _ IH]; simpl; auto.
  replace (Nat.eqb (reply_w r) w) with false; auto.
  symmetry; apply Nat.eqb_neq; intros Heq; rewrite Heq in Hr; contradiction.
Qed.

(** ** Next, Stop and the terminated loop *)


Lemma handle_status req s : status (handle req s) = status s.
Proof.
  unfold handle; destruct (existsb (Nat.eqb (req_w req)) (stopped s)), (req_reply req);
    reflexivity.
Qed.



Lemma run_op_dead s err op :
  status s = Dead err -> run_op s op = (dead_output err op, s).
Proof.
  intros Hd; destruct op; simpl.
  - unfold Next; rewrite Hd; reflexivity.
  - unfold watcher_Stop; rewrite Hd; reflexivity.
  - unfold aw_Stop; rewrite Hd; reflexivity.
  - unfold loop_step; rewrite Hd; reflexivity.
Qed.

Lemma run_ops_dead ops s err :
  status s = Dead err -> fst (run_ops ops s) = map (fun op => (op, dead_output err op)) ops.
Proof.
  intros Hd; induction ops as [|op ops IH]; simpl; auto.
  rewrite (run_op_dead s err op Hd).
  destruct (run_ops ops s) as [outs s2]; simpl in *; rewrite IH; reflexivity.
Qed.


Lemma existsb_eqb_true w l : existsb (Nat.eqb w) l = true -> In w l.
Proof.
  intros E; apply existsb_exists in E as [x [Hx Ex]].
  apply Nat.eqb_eq in Ex; subst; exact Hx.
Qed.



















(** ** Claims on the snapshot store *)

(** C1: in every reachable snapshot, [changesSince c] returns exactly the
    entries with [revno > c], in sequence order (strictly increasing
    [revno]), leaving out the removed entries created after [c]. *)
Theorem changesSince_exact (a : allInfo) (c : Z) :
  reachable a ->
  changesSince c a = map toDelta (filter (reported c) (map snd (entries a)))
  /\ StronglySorted (fun x y => revno x < revno y) (filter (reported c) (map snd (entries a))).
Proof.
  intros Hr; destruct (reachable_inv a Hr) as (Hs & _ & _).
  pose proof (SS_map_snd _ Hs) as Hs'.
  split; [|apply SS_filter; exact Hs'].
  unfold changesSince; rewrite skip_seen_sorted by exact Hs'.
  rewrite filter_filter'; reflexivity.
Qed.

Lemma changesSince_exact_witness :
  reachable (markRemoved k0 (incRef k0 (add k1 m1 (add k0 m0 newAllInfo))))
  /\ changesSince 1 (markRemoved k0 (incRef k0 (add k1 m1 (add k0 m0 newAllInfo))))
     = map toDelta (filter (reported 1)
         (map snd (entries (markRemoved k0 (incRef k0 (add k1 m1 (add k0 m0 newAllInfo))))))).
Proof.
  assert (H : reachable (markRemoved k0 (incRef k0 (add k1 m1 (add k0 m0 newAllInfo))))).
  { eapply reach_step; [|apply step_markRemoved].
    eapply reach_step; [|apply step_incRef].
    eapply reach_step; [|apply step_add; reflexivity].
    eapply reach_step; [apply reach_new|apply step_add; reflexivity]. }
  split; [exact H|].
  apply (proj1 (changesSince_exact _ 1 H)).
Defined.

(** C2 as stated fails: adding machine 0 and deleting it (the test "delete
    entry") leaves [latestRevno = 1] over an empty sequence. *)
Lemma latestRevno_tail_counterexample :
  ~ (forall a, reachable a -> latestRevno a = tail_revno a).
Proof.
  intros H.
  assert (Hr : reachable (delete k0 (add k0 m0 newAllInfo))).
  { eapply reach_step; [|apply step_delete].
    eapply reach_step; [apply reach_new|apply step_add; reflexivity]. }
  specialize (H _ Hr); vm_compute in H; discriminate.
Qed.

(** C2, amended: in every reachable snapshot [latestRevno] bounds the
    [revno] of every entry, the tail's included (and is non-negative), and
    no snapshot operation decreases it. *)
Theorem latestRevno_bounds_monotone (a : allInfo) :
  reachable a ->
  tail_revno a <= latestRevno a
  /\ Forall (fun p => revno (snd p) <= latestRevno a) (entries a)
  /\ 0 <= latestRevno a
  /\ (forall a', snap_step a a' -> latestRevno a <= latestRevno a').
Proof.
  intros Hr; destruct (reachable_inv a Hr) as (_ & Hb & H0).
  split; [|split; [exact Hb|split; [exact H0|]]].
  - unfold tail_revno; destruct (rev (entries a)) as [|p l] eqn:E; [exact H0|].
    rewrite Forall_forall in Hb; apply Hb, in_rev; rewrite E; left; reflexivity.
  - intros a'; apply snap_step_mono.
Qed.

Lemma latestRevno_bounds_monotone_witness :
  reachable (delete k0 (add k0 m0 newAllInfo))
  /\ tail_revno (delete k0 (add k0 m0 newAllInfo))
     <= latestRevno (delete k0 (add k0 m0 newAllInfo)).
Proof.
  assert (Hr : reachable (delete k0 (add k0 m0 newAllInfo))).
  { eapply reach_step; [|apply step_delete].
    eapply reach_step; [apply reach_new|apply step_add; reflexivity]. }
  split; [exact Hr|].
  apply (proj1 (latestRevno_bounds_monotone _ Hr)).
Defined.

(** C6: [decRef] of an entry decrements its [refCount]; the entry is
    deleted when the count reaches 0 and it is removed; other entries and
    [latestRevno] are unchanged. *)
Theorem decRef_spec (a : allInfo) (k : entityId) (e : entityEntry) :
  lookup k (entries a) = Some e ->
  latestRevno (decRef k a) = latestRevno a
  /\ lookup k (entries (decRef k a))
     = (if (refCount e - 1 =? 0) && removed e then None
        else Some (with_refCount e (refCount e - 1)))
  /\ (forall k', k' <> k -> lookup k' (entries (decRef k a)) = lookup k' (entries a)).
Proof.
  intros Hl; split; [apply decRef_latest|split].
  - apply decRef_lookup_same, Hl.
  - intros k' Hne; apply decRef_lookup_other, Hne.
Qed.

Lemma decRef_spec_witness :
  let a := markRemoved k0 (incRef k0 (add k0 m0 newAllInfo)) in
  lookup k0 (entries a) = Some (mkEntry 1 2 1 true m0)
  /\ latestRevno (decRef k0 a) = latestRevno a
  /\ lookup k0 (entries (decRef k0 a)) = None.
Proof.
  intros a.
  assert (Hl : lookup k0 (entries a) = Some (mkEntry 1 2 1 true m0)) by reflexivity.
  destruct (decRef_spec a k0 _ Hl) as (H1 & H2 & _).
  split; [exact Hl|split; [exact H1|]].
  rewrite H2; reflexivity.
Defined.

(** C7: on an absent key, [update] is [add]: a fresh entry with
    [creationRevno = revno = latestRevno + 1], no reference, not removed,
    appended at the tail. *)
Theorem update_absent_is_add (a : allInfo) (k : entityId) (i : EntityInfo) :
  lookup k (entries a) = None ->
  update k i a = add k i a
  /\ latestRevno (update k i a) = latestRevno a + 1
  /\ entries (update k i a)
     = entries a ++ [(k, mkEntry (latestRevno a + 1) (latestRevno a + 1) 0 false i)].
Proof.
  intros Hl; unfold update; rewrite Hl; repeat split; reflexivity.
Qed.

Lemma update_absent_is_add_witness :
  lookup k1 (entries newAllInfo) = None
  /\ latestRevno (update k1 m1 newAllInfo) = 1.
Proof.
  assert (Hl : lookup k1 (entries newAllInfo) = None) by reflexivity.
  split; [exact Hl|].
  rewrite (proj1 (proj2 (update_absent_is_add newAllInfo k1 m1 Hl))); reflexivity.
Defined.

(** C10: [markRemoved] of an entry already marked removed leaves the whole
    snapshot as it is: same [revno], position, [refCount] and
    [latestRevno]. *)
Theorem markRemoved_already_removed (a : allInfo) (k : entityId) (e : entityEntry) :
  lookup k (entries a) = Some e -> removed e = true ->
  markRemoved k a = a.
Proof.
  intros Hl Hr; unfold markRemoved; rewrite Hl, Hr; reflexivity.
Qed.

Lemma markRemoved_already_removed_witness :
  let a := update k1 (MachineInfo "1" "i-1")
             (markRemoved k0 (incRef k0 (add k1 m1 (add k0 m0 newAllInfo)))) in
  lookup k0 (entries a) = Some (mkEntry 1 3 1 true m0)
  /\ markRemoved k0 a = a.
Proof.
  intros a.
  assert (Hl : lookup k0 (entries a) = Some (mkEntry 1 3 1 true m0)) by reflexivity.
  split; [exact Hl|].
  apply (markRemoved_already_removed a k0 _ Hl); reflexivity.
Defined.

(** ** Claims on the multiplexer *)

(** C8: handling the stop request of a running watcher answers [false] to
    each of its pending requests and removes its entry from the waiting
    table; the entries of the other watchers are untouched. *)
Theorem handle_stop_drains (s : allWatcher) (w : nat) :
  ~ In w (stopped s) ->
  sent (handle (mkRequest w None) s)
    = sent s ++ map (fun ch => mkReply w ch false []) (pending w s)
  /\ wt_lookup w (waiting (handle (mkRequest w None) s)) = None
  /\ (forall w', w' <> w ->
      wt_lookup w' (waiting (handle (mkRequest w None) s)) = wt_lookup w' (waiting s)).
Proof.
  intros Hn; unfold handle; simpl; rewrite existsb_eqb_false by exact Hn; simpl.
  split; [reflexivity|split].
  - apply wt_lookup_del_same.
  - intros w' Hne; apply wt_lookup_del_other, Hne.
Qed.

Lemma handle_stop_drains_witness :
  ~ In 0%nat (stopped handle_test_state)
  /\ sent (handle (mkRequest 0%nat None) handle_test_state)
     = [mkReply 0%nat 101%nat false []; mkReply 0%nat 100%nat false []].
Proof.
  assert (Hn : ~ In 0%nat (stopped handle_test_state)) by (vm_compute; tauto).
  split; [exact Hn|].
  rewrite (proj1 (handle_stop_drains handle_test_state 0%nat Hn)); reflexivity.
Defined.

(** C4 as stated fails: watcher 0 had seen machine 0 (cursor 1,
    creationRevno 1); machine 0 is marked removed, yet stopping watcher 0
    takes its reference count from 2 to 1. *)
Lemma stop_removed_entry_counterexample :
  cursor 0%nat stop_scenario = 1
  /\ lookup k0 (entries (all stop_scenario)) = Some (mkEntry 1 2 2 true m0)
  /\ lookup k0 (entries (all (handle (mkRequest 0%nat None) stop_scenario)))
     = Some (mkEntry 1 2 1 true m0).
Proof. vm_compute; repeat split; reflexivity. Qed.

(** C4, amended: stopping a running watcher at cursor [c] applies [decRef]
    to exactly the entries it had seen ([creationRevno <= c]) and had not
    already been delivered as removed (not [removed] with [revno <= c]); the
    count drops by one, and such an entry that is removed is deleted when
    it reaches 0; every other entry is left as it is. *)
Theorem stop_refcounts (s : allWatcher) (w : nat) (k : entityId) (e : entityEntry) :
  ~ In w (stopped s) ->
  NoDup (map fst (entries (all s))) ->
  lookup k (entries (all s)) = Some e ->
  lookup k (entries (all (handle (mkRequest w None) s)))
  = (if (creationRevno e <=? cursor w s) && negb (removed e && (revno e <=? cursor w s))
     then decRef_entry e else Some e).
Proof.
  intros Hn Hnd Hl; unfold handle; simpl; rewrite existsb_eqb_false by exact Hn; simpl.
  unfold leave; rewrite leave_fold; auto.
  - rewrite Hl; reflexivity.
  - intros p Hp; apply NoDup_lookup; auto.
Qed.

Lemma stop_refcounts_witness :
  ~ In 0%nat (stopped stop_scenario)
  /\ NoDup (map fst (entries (all stop_scenario)))
  /\ lookup k0 (entries (all stop_scenario)) = Some (mkEntry 1 2 2 true m0)
  /\ lookup k0 (entries (all (handle (mkRequest 0%nat None) stop_scenario)))
     = Some (mkEntry 1 2 1 true m0).
Proof.
  assert (Hn : ~ In 0%nat (stopped stop_scenario)) by (vm_compute; tauto).
  assert (Hnd : NoDup (map fst (entries (all stop_scenario))))
    by (vm_compute; repeat constructor; simpl; tauto).
  assert (Hl : lookup k0 (entries (all stop_scenario)) = Some (mkEntry 1 2 2 true m0))
    by reflexivity.
  split; [exact Hn|split; [exact Hnd|split; [exact Hl|]]].
  rewrite (stop_refcounts stop_scenario 0%nat k0 _ Hn Hnd Hl); reflexivity.
Defined.




(** C5: a fetch error other than "not found" after a change notification
    ends the loop with that error, and every later [Next()] (with no delta)
    and [Stop()] returns that same error. *)
Theorem fetch_error_latched (s : allWatcher) (k : entityId) (e : string)
    (ops : list clientOp) :
  status s = Alive -> backing s k = FetchError e ->
  status (loop_step s (EvChange k true)) = Dead (Some e)
  /\ Forall (fun p => match fst p with
                      | OpNext _ _ => snd p = OutNext (NextDone [] (Some e))
                      | OpWatcherStop _ => snd p = OutErr (Some e)
                      | OpStop => snd p = OutErr (Some e)
                      | OpEvent _ => snd p = OutNone
                      end)
            (fst (run_ops ops (loop_step s (EvChange k true)))).
Proof.
  intros Ha Hb.
  assert (Hd : status (loop_step s (EvChange k true)) = Dead (Some e)).
  { unfold loop_step, changed; rewrite Ha, Hb; reflexivity. }
  split; [exact Hd|].
  rewrite (run_ops_dead ops _ _ Hd).
  apply Forall_forall; intros p Hp; apply in_map_iff in Hp.
  destruct Hp as [op [<- _]]; destruct op; reflexivity.
Qed.

Lemma fetch_error_latched_witness :
  status (newAllWatcher failing_backing) = Alive
  /\ backing (newAllWatcher failing_backing) k1 = FetchError "some error"
  /\ status (loop_step (newAllWatcher failing_backing) (EvChange k1 true))
     = Dead (Some "some error"%string).
Proof.
  assert (Ha : status (newAllWatcher failing_backing) = Alive) by reflexivity.
  assert (Hb : backing (newAllWatcher failing_backing) k1 = FetchError "some error")
    by reflexivity.
  split; [exact Ha|split; [exact Hb|]].
  apply (proj1 (fetch_error_latched _ k1 _ [OpNext 0%nat 5%nat; OpStop] Ha Hb)).
Defined.

(** C3: let watcher [w] wait on channels [ch :: rest] (most recent first),
    with the watchers before it in the table [pre] and after it [post].
    [respond()] computes [w]'s delta set [d] on the snapshot as it stands
    when it reaches [w].  If [w] is behind [latestRevno], [d] is non-empty
    and [w] has more than one pending request, [d] goes to [ch] alone, the
    top of the stack, and [rest] stays pending.  If [d] is empty, [w] gets
    no reply and all its requests stay pending. *)
Theorem respond_pops_top (s : allWatcher) (pre post : list (nat * list nat))
    (w ch : nat) (rest : list nat) :
  waiting s = pre ++ (w, ch :: rest) :: post ->
  ~ In w (map fst pre) -> ~ In w (map fst post) ->
  let s1 := fold_left respond_watcher pre s in
  let d := changesSince (cursor w s) (all s1) in
  (rest <> [] -> cursor w s < latestRevno (all s1) -> d <> [] ->
     wt_lookup w (waiting (respond s)) = Some rest
     /\ exists extra, sent (respond s) = sent s ++ extra
        /\ filter (fun r => Nat.eqb (reply_w r) w) extra = [mkReply w ch true d])
  /\ (d = [] \/ latestRevno (all s1) <= cursor w s ->
     wt_lookup w (waiting (respond s)) = Some (ch :: rest)
     /\ exists extra, sent (respond s) = sent s ++ extra
        /\ filter (fun r => Nat.eqb (reply_w r) w) extra = []).
Proof.
  intros Hw Hpre Hpost s1 d.
  assert (Hs1 : wt_lookup w (waiting s1) = Some (ch :: rest) /\ cursor w s1 = cursor w s).
  { destruct (respond_fold_other pre s w Hpre) as [H1 H2]; fold s1 in H1, H2.
    split; [|exact H2].
    rewrite H1, Hw; apply wt_lookup_app_notin, Hpre. }
  destruct Hs1 as [Hl1 Hc1].
  destruct (respond_fold_frame pre s) as (_ & _ & extra1 & Hsent1 & HF1).
  fold s1 in Hsent1.
  pose proof (filter_reply_w_notin w pre extra1 Hpre HF1) as Hf1.
  unfold respond; rewrite Hw, fold_left_app; cbn [fold_left]; fold s1.
  set (s2 := respond_watcher s1 (w, ch :: rest)).
  destruct (respond_fold_other post s2 w Hpost) as [Hl3 _].
  destruct (respond_fold_frame post s2) as (_ & _ & extra3 & Hsent3 & HF3).
  pose proof (filter_reply_w_notin w post extra3 Hpost HF3) as Hf3.
  rewrite Hl3, Hsent3.
  split.
  - intros Hrest Hlt Hd.
    assert (E2 : s2 = mkAllWatcher (seen (cursor w s) (all s1))
                        (wt_set w rest (waiting s1))
                        (wt_set w (latestRevno (all s1)) (revnos s1)) (stopped s1)
                        (sent s1 ++ [mkReply w ch true d]) (backing s1) (status s1)).
    { unfold s2; simpl; rewrite Hc1.
      replace (cursor w s <? latestRevno (all s1)) with true
        by (symmetry; apply Z.ltb_lt; exact Hlt).
      fold d; destruct d as [|d0 ds]; [contradiction|].
      destruct rest as [|r0 rs]; [contradiction|reflexivity]. }
    rewrite E2; simpl; split; [apply wt_lookup_set_same|].
    exists (extra1 ++ [mkReply w ch true d] ++ extra3); split.
    + rewrite Hsent1, <- !app_assoc; reflexivity.
    + rewrite !filter_app, Hf1, Hf3; simpl; rewrite Nat.eqb_refl; reflexivity.
  - intros Hd.
    assert (E2 : s2 = s1).
    { unfold s2; simpl; rewrite Hc1.
      destruct Hd as [Hd|Hle].
      - destruct (cursor w s <? latestRevno (all s1)); [|reflexivity].
        fold d; rewrite Hd; reflexivity.
      - replace (cursor w s <? latestRevno (all s1)) with false
          by (symmetry; apply Z.ltb_ge; exact Hle); reflexivity. }
    rewrite E2; split; [exact Hl1|].
    exists (extra1 ++ extra3); split.
    + rewrite Hsent1, <- app_assoc; reflexivity.
    + rewrite filter_app, Hf1, Hf3; reflexivity.
Qed.

Lemma respond_pops_top_witness :
  waiting respond_multiple_state
    = [(0%nat, [101%nat]) ] ++ (1%nat, [103%nat; 102%nat]) :: []
  /\ wt_lookup 1%nat (waiting (respond respond_multiple_state)) = Some [102%nat].
Proof.
  assert (Hw : waiting respond_multiple_state
               = [(0%nat, [101%nat])] ++ (1%nat, [103%nat; 102%nat]) :: [])
    by (vm_compute; reflexivity).
  assert (Hpre : ~ In 1%nat (map fst [(0%nat, [101%nat])])) by (simpl; lia).
  assert (Hpost : ~ In 1%nat (map fst (@nil (nat * list nat)))) by (simpl; tauto).
  split; [exact Hw|].
  apply (proj1 (respond_pops_top respond_multiple_state _ _ 1%nat 103%nat [102%nat]
                  Hw Hpre Hpost)).
  - discriminate.
  - vm_compute; reflexivity.
  - vm_compute; discriminate.
Defined.

(** ** Properties of the test backing and the test helpers *)

(** ** Go maps keyed by entityId *)

Lemma elookup_eset_same {A} k (v : A) m : elookup k (eset k v m) = Some v.
Proof.
  induction m as [|[k' v'] m IH]; simpl; [rewrite entityId_eqb_refl; reflexivity|].
  destruct (entityId_eqb k k') eqn:E; simpl; [rewrite E; reflexivity|].
  rewrite E; exact IH.
Qed.

Lemma elookup_eset_other {A} k k' (v : A) m :
  k' <> k -> elookup k' (eset k v m) = elookup k' m.
Proof.
  intros Hne; induction m as [|[k'' v'] m IH]; simpl.
  - rewrite entityId_eqb_neq by exact Hne; reflexivity.
  - destruct (entityId_eqb k k'') eqn:E; simpl.
    + apply entityId_eqb_spec in E; subst.
      rewrite entityId_eqb_neq by exact Hne; reflexivity.
    + destruct (entityId_eqb k' k''); [reflexivity|exact IH].
Qed.

Lemma elookup_eset {A} k k' (v : A) m :
  elookup k' (eset k v m) = if entityId_eqb k' k then Some v else elookup k' m.
Proof.
  destruct (entityId_eqb k' k) eqn:E.
  - apply entityId_eqb_spec in E; subst; apply elookup_eset_same.
  - apply elookup_eset_other; intros ->; rewrite entityId_eqb_refl in E; discriminate.
Qed.

Lemma elookup_edel {A} k k' (m : list (entityId * A)) :
  elookup k' (edel k m) = if entityId_eqb k' k then None else elookup k' m.
Proof.
  unfold edel; induction m as [|[k'' v] m IH]; simpl.
  - destruct (entityId_eqb k' k); reflexivity.
  - destruct (entityId_eqb k'' k) eqn:E; simpl.
    + apply entityId_eqb_spec in E; subst k''.
      rewrite IH; destruct (entityId_eqb k' k); reflexivity.
    + rewrite IH; destruct (entityId_eqb k' k) eqn:E'.
      * apply entityId_eqb_spec in E'; subst k'.
        rewrite entityId_eqb_neq; [reflexivity|].
        intros <-; rewrite entityId_eqb_refl in E; discriminate.
      * destruct (entityId_eqb k' k''); reflexivity.
Qed.

Lemma elookup_None_notin {A} k (m : list (entityId * A)) :
  elookup k m = None -> ~ In k (map fst m).
Proof.
  induction m as [|[k' v] m IH]; simpl; [tauto|].
  destruct (entityId_eqb k k') eqn:E; [discriminate|].
  intros H [Heq|Hin]; [subst; rewrite entityId_eqb_refl in E; discriminate|].
  exact (IH H Hin).
Qed.

Lemma elookup_notin {A} k (m : list (entityId * A)) :
  ~ In k (map fst m) -> elookup k m = None.
Proof.
  induction m as [|[k' v] m IH]; simpl; auto.
  intros Hn; rewrite entityId_eqb_neq by (intros ->; apply Hn; left; reflexivity).
  apply IH; intros H; apply Hn; right; exact H.
Qed.

Lemma eset_keys {A} k (v : A) m :
  map fst (eset k v m) = if existsb (fun p => entityId_eqb k (fst p)) m
                         then map fst m else map fst m ++ [k].
Proof.
  induction m as [|[k' v'] m IH]; simpl; auto.
  destruct (entityId_eqb k k') eqn:E; simpl.
  - apply entityId_eqb_spec in E; subst; reflexivity.
  - rewrite IH; destruct existsb; reflexivity.
Qed.

Lemma NoDup_eset {A} k (v : A) m :
  NoDup (map fst m) -> NoDup (map fst (eset k v m)).
Proof.
  intros Hnd; rewrite eset_keys.
  destruct (existsb (fun p => entityId_eqb k (fst p)) m) eqn:E; auto.
  apply NoDup_app; auto.
  - repeat constructor; simpl; tauto.
  - intros x Hx [Hx'|[]]; subst x.
    apply in_map_iff in Hx as [[k' v'] [Hk Hin]]; simpl in Hk; subst k'.
    assert (existsb (fun p => entityId_eqb k (fst p)) m = true) as H.
    { apply existsb_exists; exists (k, v'); simpl; rewrite entityId_eqb_refl; auto. }
    congruence.
Qed.

Lemma NoDup_edel {A} k (m : list (entityId * A)) :
  NoDup (map fst m) -> NoDup (map fst (edel k m)).
Proof.
  unfold edel; induction m as [|[k' v] m IH]; simpl; auto.
  intros Hnd; inversion Hnd as [|? ? Hn Hnd']; subst.
  destruct (negb (entityId_eqb k' k)); simpl; auto.
  constructor; auto.
  intros Hin; apply Hn.
  apply in_map_iff in Hin as [p [Hp Hin]].
  apply filter_In in Hin as [Hin _].
  rewrite <- Hp; apply in_map, Hin.
Qed.

(** ** The test backing *)

(** X1: after [updateEntity info], fetching the info's id returns the info (or the latched fetch error); every other id fetches as before. *)
Lemma fetch_updateEntity b i k :
  fetch (fst (updateEntity i b)) k
  = if entityId_eqb k (entityIdForInfo i)
    then match fetchErr b with Some err => FetchError err | None => Fetched i end
    else fetch b k.
Proof.
  unfold fetch, updateEntity; simpl.
  rewrite elookup_eset.
  destruct (fetchErr b), (entityId_eqb k (entityIdForInfo i)); reflexivity.
Qed.

(** X2: after [deleteEntity id], fetching [id] gives not-found (or the latched fetch error); every other id fetches as before. *)
Lemma fetch_deleteEntity b k k' :
  fetch (fst (deleteEntity k b)) k'
  = if entityId_eqb k' k
    then match fetchErr b with Some err => FetchError err | None => NotFound end
    else fetch b k'.
Proof.
  unfold fetch, deleteEntity; simpl.
  rewrite elookup_edel.
  destruct (fetchErr b), (entityId_eqb k' k); reflexivity.
Qed.

Lemma mutateAll_fetchErr ms b : fetchErr (fst (mutateAll ms b)) = fetchErr b.
Proof.
  revert b; induction ms as [|m ms IH]; intros b; simpl; auto.
  destruct (mutate m b) as [b1 c1] eqn:E1.
  destruct (mutateAll ms b1) as [b2 c2] eqn:E2; simpl.
  specialize (IH b1); rewrite E2 in IH; simpl in IH; rewrite IH.
  destruct m; simpl in E1; inversion E1; reflexivity.
Qed.

(** X3: once [setFetchError] latches an error, every fetch returns it, whatever updates and deletes follow. *)
Lemma fetch_error_sticky ms b err k :
  fetch (fst (mutateAll ms (setFetchError (Some err) b))) k = FetchError err.
Proof.
  unfold fetch; rewrite mutateAll_fetchErr; reflexivity.
Qed.

Lemma find_app' {A} (f : A -> bool) l1 l2 :
  find f (l1 ++ l2) = match find f l1 with Some x => Some x | None => find f l2 end.
Proof.
  induction l1 as [|x l1 IH]; simpl; auto.
  destruct (f x); auto.
Qed.

Lemma newTestBacking_fold k initial m :
  elookup k (fold_left (fun m i => eset (entityIdForInfo i) i m) initial m)
  = match find (fun i => entityId_eqb (entityIdForInfo i) k) (rev initial) with
    | Some i => Some i
    | None => elookup k m
    end.
Proof.
  revert m; induction initial as [|i l IH]; intros m; simpl; auto.
  rewrite IH, find_app'; simpl.
  destruct (find _ (rev l)); auto.
  rewrite elookup_eset.
  destruct (entityId_eqb k (entityIdForInfo i)) eqn:E;
  destruct (entityId_eqb (entityIdForInfo i) k) eqn:E'; auto.
  - apply entityId_eqb_spec in E; subst; rewrite entityId_eqb_refl in E'; discriminate.
  - apply entityId_eqb_spec in E'; subst; rewrite entityId_eqb_refl in E; discriminate.
Qed.

(** X4: a fresh backing fetches, for each id, the last initial info with that id, and not-found for the others. *)
Lemma newTestBacking_fetch initial k :
  fetch (newTestBacking initial) k
  = match find (fun i => entityId_eqb (entityIdForInfo i) k) (rev initial) with
    | Some i => Fetched i
    | None => NotFound
    end.
Proof.
  unfold fetch, newTestBacking; simpl.
  rewrite newTestBacking_fold; simpl.
  destruct (find _ _); reflexivity.
Qed.

(** X5: on a backing that is not watching, [unwatch(nil)] succeeds and
    changes nothing, unwatching a channel panics, and [watch(nil)] changes
    nothing (the backing still does not watch).  [watch(c)] of a channel
    succeeds; then any further [watch] panics, [unwatch] of anything but [c]
    (nil included) panics, and [unwatch(c)] gives back the backing. *)
Lemma watch_unwatch b (c : nat) (c' : option nat) :
  watchc b = None ->
  unwatch None b = Some b
  /\ unwatch (Some c) b = None
  /\ watch None b = Some b
  /\ match watch (Some c) b with
     | Some b1 =>
         watch c' b1 = None /\ unwatch (Some c) b1 = Some b
         /\ (c' <> Some c -> unwatch c' b1 = None)
     | None => False
     end.
Proof.
  destruct b as [fe es wc tr]; simpl; intros ->; unfold unwatch, watch; simpl.
  repeat split; [rewrite Nat.eqb_refl; reflexivity|].
  intros Hne; destruct c' as [n|]; simpl; [|reflexivity].
  destruct (Nat.eqb_spec n c) as [->|]; [contradiction|reflexivity].
Qed.

Lemma watch_unwatch_witness :
  watchc (newTestBacking []) = None
  /\ (unwatch None (newTestBacking []) = Some (newTestBacking [])
      /\ unwatch (Some 1%nat) (newTestBacking []) = None
      /\ watch None (newTestBacking []) = Some (newTestBacking [])
      /\ match watch (Some 1%nat) (newTestBacking []) with
         | Some b1 =>
             watch None b1 = None /\ unwatch (Some 1%nat) b1 = Some (newTestBacking [])
             /\ (None <> Some 1%nat -> unwatch None b1 = None)
         | None => False
         end).
Proof. split; [reflexivity|]. apply (watch_unwatch (newTestBacking []) 1 None). reflexivity. Defined.

Lemma mutate_step m b :
  txnRevno (fst (mutate m b)) = txnRevno b + 1
  /\ watchc (fst (mutate m b)) = watchc b
  /\ snd (mutate m b)
     = match watchc b with
       | Some _ =>
           [mkChange (collection (mutation_key m)) (id (mutation_key m))
              (match m with MUpdate _ => txnRevno b + 1 | MDelete _ => -1 end)]
       | None => []
       end.
Proof. destruct m; simpl; repeat split. Qed.

(** The changes of mutations numbered from [k + 1] on, starting from
    txnRevno [t], shifted by one. *)
Lemma changes_seq_shift (t : Z) ms k :
  map (fun p => mkChange (collection (mutation_key (fst p))) (id (mutation_key (fst p)))
                  (match fst p with MUpdate _ => t + Z.of_nat (snd p) | MDelete _ => -1 end))
      (combine ms (seq (S k) (List.length ms)))
  = map (fun p => mkChange (collection (mutation_key (fst p))) (id (mutation_key (fst p)))
                  (match fst p with MUpdate _ => (t + 1) + Z.of_nat (snd p) | MDelete _ => -1 end))
      (combine ms (seq k (List.length ms))).
Proof.
  revert k; induction ms as [|m ms IH]; intros k; simpl; auto.
  rewrite IH; f_equal; f_equal; destruct m; simpl; lia.
Qed.

(** X6: over a sequence of updates and deletes, txnRevno grows by one per
    mutation and the channel is kept; when the backing watches, the i-th
    mutation (from 1) sends exactly one change, naming the entity it
    touched, with revno -1 for a delete and the starting txnRevno plus i for
    an update; when it does not watch, nothing is sent. *)
Lemma mutateAll_changes ms b :
  txnRevno (fst (mutateAll ms b)) = txnRevno b + Z.of_nat (List.length ms)
  /\ watchc (fst (mutateAll ms b)) = watchc b
  /\ snd (mutateAll ms b)
     = match watchc b with
       | Some _ =>
           map (fun p => mkChange (collection (mutation_key (fst p))) (id (mutation_key (fst p)))
                           (match fst p with
                            | MUpdate _ => txnRevno b + Z.of_nat (snd p)
                            | MDelete _ => -1
                            end))
             (combine ms (seq 1 (List.length ms)))
       | None => []
       end.
Proof.
  revert b; induction ms as [|m ms IH]; intros b; simpl.
  - repeat split; [lia|destruct (watchc b); reflexivity].
  - destruct (mutate_step m b) as (Ht & Hw & Hc).
    destruct (mutate m b) as [b1 c1] eqn:E1; simpl in Ht, Hw, Hc.
    destruct (IH b1) as (Ht2 & Hw2 & Hc2).
    destruct (mutateAll ms b1) as [b2 c2] eqn:E2; simpl in *.
    subst c1; rewrite Ht2, Hw2, Hc2, Hw, Ht; repeat split; [lia|].
    destruct (watchc b); [|reflexivity].
    simpl; rewrite (changes_seq_shift _ _ 1); reflexivity.
Qed.

(** ** getAll *)

Lemma getAll_fold l a :
  NoDup (map fst l) ->
  (forall k, In k (map fst l) -> lookup k (entries a) = None) ->
  fold_left (fun a p => update (fst p) (snd p) a) l a
  = mkAllInfo (latestRevno a + Z.of_nat (List.length l))
      (entries a ++ numbered (latestRevno a) l).
Proof.
  revert a; induction l as [|[k i] l IH]; intros a Hnd Hab; simpl.
  - destruct a; simpl; rewrite Z.add_0_r, app_nil_r; reflexivity.
  - inversion Hnd as [|? ? Hn Hnd']; subst.
    unfold update at 2; simpl.
    rewrite (Hab k) by (left; reflexivity).
    unfold add; rewrite IH; simpl; auto.
    + rewrite <- app_assoc; simpl; f_equal; lia.
    + intros k' Hk'; rewrite lookup_app, (Hab k') by (right; exact Hk'); simpl.
      rewrite entityId_eqb_neq; [reflexivity|].
      intros ->; exact (Hn Hk').
Qed.

Lemma lookup_numbered k r l :
  option_map (fun e => (refCount e, removed e, info e)) (lookup k (numbered r l))
  = option_map (fun i => (0, false, i)) (elookup k l).
Proof.
  revert r; induction l as [|[k' i] l IH]; intros r; simpl; auto.
  destruct (entityId_eqb k k'); auto.
Qed.

Lemma numbered_revno r l :
  Forall (fun p => r < revno (snd p) /\ removed (snd p) = false) (numbered r l).
Proof.
  revert r; induction l as [|[k i] l IH]; intros r; simpl; constructor.
  - simpl; split; [lia|reflexivity].
  - eapply Forall_impl; [|apply IH]; simpl; intros p [H1 H2]; split; [lia|exact H2].
Qed.

Lemma numbered_deltas r l :
  map toDelta (map snd (numbered r l)) = map (fun p => mkDelta false (snd p)) l.
Proof.
  revert r; induction l as [|[k i] l IH]; intros r; simpl; auto.
  rewrite IH; reflexivity.
Qed.

Lemma elookup_perm {A} k (l l' : list (entityId * A)) :
  NoDup (map fst l) -> Permutation l l' -> elookup k l = elookup k l'.
Proof.
  intros Hnd Hp; induction Hp as [|[x v] l l' Hp IH|[x v] [y w] l|l l' l'' Hp1 IH1 Hp2 IH2];
    simpl in *.
  - reflexivity.
  - inversion Hnd; subst; rewrite IH; auto.
  - inversion Hnd as [|? ? Hn Hnd']; subst.
    destruct (entityId_eqb k y) eqn:Ey, (entityId_eqb k x) eqn:Ex; auto.
    apply entityId_eqb_spec in Ex, Ey; subst.
    exfalso; apply Hn; left; reflexivity.
  - rewrite IH1 by exact Hnd; apply IH2.
    eapply Permutation_NoDup; [apply Permutation_map, Hp1|exact Hnd].
Qed.

(** X7: getAll into an empty snapshot, whatever order the [range] visits
    the backing's map in, adds every backing entity once, unreferenced and
    not removed, sets latestRevno to their number, and changesSince 0 then
    reports exactly the entities, none removed, in some order. *)
Lemma getAll_newAllInfo b visit :
  NoDup (map fst (entities b)) ->
  Permutation visit (entities b) ->
  latestRevno (getAll_visit visit newAllInfo) = Z.of_nat (List.length (entities b))
  /\ (forall k,
        option_map (fun e => (refCount e, removed e, info e))
          (lookup k (entries (getAll_visit visit newAllInfo)))
        = option_map (fun i => (0, false, i)) (elookup k (entities b)))
  /\ Permutation (changesSince 0 (getAll_visit visit newAllInfo))
       (map (fun p => mkDelta false (snd p)) (entities b)).
Proof.
  intros Hnd0 Hp.
  assert (Hnd : NoDup (map fst visit))
    by (eapply Permutation_NoDup; [apply Permutation_map, Permutation_sym, Hp|exact Hnd0]).
  unfold getAll_visit; rewrite getAll_fold; simpl; auto.
  repeat split.
  - f_equal; apply Permutation_length; exact Hp.
  - intros k; rewrite lookup_numbered; f_equal; apply elookup_perm; assumption.
  - unfold changesSince; simpl.
    pose proof (numbered_revno 0 visit) as Hf.
    apply Permutation_trans with (map (fun p => mkDelta false (snd p)) visit);
      [|apply Permutation_map, Hp].
    destruct (numbered 0 visit) as [|p l] eqn:E; simpl.
    + rewrite <- (numbered_deltas 0), E; reflexivity.
    + inversion Hf as [|? ? [Hr Hrm] Hf']; subst.
      destruct (Z.leb_spec (revno (snd p)) 0); [lia|].
      rewrite filter_all.
      * rewrite <- (numbered_deltas 0), E; reflexivity.
      * constructor; [rewrite Hrm; reflexivity|].
        apply Forall_map; eapply Forall_impl; [|exact Hf'].
        intros q [_ Hq]; rewrite Hq; reflexivity.
Qed.

Lemma getAll_newAllInfo_witness :
  NoDup (map fst (entities (newTestBacking [m0; m1])))
  /\ Permutation [(entityIdForInfo m1, m1); (entityIdForInfo m0, m0)]
       (entities (newTestBacking [m0; m1]))
  /\ (latestRevno (getAll_visit [(entityIdForInfo m1, m1); (entityIdForInfo m0, m0)] newAllInfo)
      = Z.of_nat (List.length (entities (newTestBacking [m0; m1])))
  /\ (forall k,
        option_map (fun e => (refCount e, removed e, info e))
          (lookup k (entries (getAll_visit [(entityIdForInfo m1, m1); (entityIdForInfo m0, m0)]
                                newAllInfo)))
        = option_map (fun i => (0, false, i)) (elookup k (entities (newTestBacking [m0; m1]))))
  /\ Permutation
       (changesSince 0 (getAll_visit [(entityIdForInfo m1, m1); (entityIdForInfo m0, m0)]
                          newAllInfo))
       (map (fun p => mkDelta false (snd p)) (entities (newTestBacking [m0; m1])))).
Proof.
  assert (H : NoDup (map fst (entities (newTestBacking [m0; m1])))).
  { vm_compute; constructor; [intros [H|[]]; discriminate H|].
    constructor; [intros []|constructor]. }
  assert (Hp : Permutation [(entityIdForInfo m1, m1); (entityIdForInfo m0, m0)]
                 (entities (newTestBacking [m0; m1])))
    by (vm_compute; apply perm_swap).
  split; [exact H|split; [exact Hp|apply getAll_newAllInfo; [exact H|exact Hp]]].
Defined.

Lemma entityId_eqb_sym a b : entityId_eqb a b = entityId_eqb b a.
Proof.
  destruct (entityId_eqb a b) eqn:E.
  - apply entityId_eqb_spec in E; subst; rewrite entityId_eqb_refl; reflexivity.
  - destruct (entityId_eqb b a) eqn:E'; auto.
    apply entityId_eqb_spec in E'; subst; rewrite entityId_eqb_refl in E; discriminate.
Qed.

(** ** deltaMap *)

Lemma deltaMap_from_defined m ds :
  deltaMap_from m ds <> None
  <-> NoDup (map (fun d => entityIdForInfo (Entity d)) ds)
      /\ Forall (fun d => elookup (entityIdForInfo (Entity d)) m = None) ds.
Proof.
  revert m; induction ds as [|d ds IH]; intros m; simpl.
  - split; [intros _; split; constructor|intros _; discriminate].
  - destruct (elookup (entityIdForInfo (Entity d)) m) eqn:E.
    + split; [intros H; exfalso; apply H; reflexivity|].
      intros [_ H]; inversion H as [|? ? Hd _]; congruence.
    + rewrite IH; split.
      * intros [Hnd Hf]; split; [constructor; [|exact Hnd]|constructor; [exact E|]].
        -- intros Hin; apply in_map_iff in Hin as [d' [Hd' Hin]].
           rewrite Forall_forall in Hf; specialize (Hf d' Hin); simpl in Hf.
           rewrite Hd', elookup_eset_same in Hf; discriminate.
        -- eapply Forall_impl; [|exact Hf]; intros d' Hd'; cbv beta in Hd' |- *.
           destruct (entityId_eqb (entityIdForInfo (Entity d')) (entityIdForInfo (Entity d))) eqn:Ek.
           ++ apply entityId_eqb_spec in Ek; rewrite Ek, elookup_eset_same in Hd'; discriminate.
           ++ rewrite elookup_eset, Ek in Hd'; exact Hd'.
      * intros [Hnd Hf]; inversion Hnd as [|? ? Hn Hnd']; subst.
        inversion Hf as [|? ? _ Hf']; subst.
        split; [exact Hnd'|].
        rewrite Forall_forall in *; intros d' Hin.
        rewrite elookup_eset_other; [apply Hf', Hin|].
        intros Heq; apply Hn; rewrite <- Heq.
        apply (in_map (fun d => entityIdForInfo (Entity d))), Hin.
Qed.

(** X8: deltaMap panics exactly when an entity id occurs twice in the delta list. *)
Lemma deltaMap_defined ds :
  deltaMap ds <> None <-> NoDup (map (fun d => entityIdForInfo (Entity d)) ds).
Proof.
  unfold deltaMap; rewrite deltaMap_from_defined; split; [intros [H _]; exact H|].
  intros H; split; [exact H|].
  apply Forall_forall; reflexivity.
Qed.

Lemma deltaMap_from_lookup m ds m' k :
  deltaMap_from m ds = Some m' ->
  elookup k m'
  = match find (fun d => entityId_eqb (entityIdForInfo (Entity d)) k) ds with
    | Some d => Some (if Removed d then None else Some (Entity d))
    | None => elookup k m
    end.
Proof.
  revert m; induction ds as [|d ds IH]; intros m H; simpl in *.
  - inversion H; reflexivity.
  - destruct (elookup (entityIdForInfo (Entity d)) m) eqn:E; [discriminate|].
    pose proof H as Hdef.
    apply IH in H; rewrite H; clear H.
    destruct (entityId_eqb (entityIdForInfo (Entity d)) k) eqn:Ek.
    + apply entityId_eqb_spec in Ek; subst k.
      destruct (find _ ds) as [d'|] eqn:Ef.
      * apply find_some in Ef as [Hin Heq]; apply entityId_eqb_spec in Heq.
        assert (Hd : deltaMap_from
                       (eset (entityIdForInfo (Entity d))
                          (if Removed d then None else Some (Entity d)) m) ds <> None)
          by (rewrite Hdef; discriminate).
        apply deltaMap_from_defined in Hd as [_ Hf].
        rewrite Forall_forall in Hf; specialize (Hf d' Hin).
        rewrite Heq, elookup_eset_same in Hf; discriminate.
      * apply elookup_eset_same.
    + destruct (find _ ds); auto.
      rewrite elookup_eset, entityId_eqb_sym, Ek; reflexivity.
Qed.

(** X9: deltaMap binds each id of the list to its delta's entity, or to nil when the delta is a removal, and binds no other id. *)
Lemma deltaMap_lookup ds m k :
  deltaMap ds = Some m ->
  elookup k m
  = option_map (fun d => if Removed d then None else Some (Entity d))
      (find (fun d => entityId_eqb (entityIdForInfo (Entity d)) k) ds).
Proof.
  intros H; rewrite (deltaMap_from_lookup [] ds m k H).
  destruct (find _ ds); reflexivity.
Qed.

Lemma find_perm {A} (key : A -> entityId) k l l' :
  NoDup (map key l) -> Permutation l l' ->
  find (fun d => entityId_eqb (key d) k) l = find (fun d => entityId_eqb (key d) k) l'.
Proof.
  intros Hnd Hp; induction Hp as [|x l l' Hp IH|x y l|l l' l'' Hp1 IH1 Hp2 IH2]; simpl.
  - reflexivity.
  - inversion Hnd; subst; rewrite IH; auto.
  - inversion Hnd as [|? ? Hn Hnd']; subst.
    destruct (entityId_eqb (key x) k) eqn:Ex, (entityId_eqb (key y) k) eqn:Ey; auto.
    apply entityId_eqb_spec in Ex, Ey.
    exfalso; apply Hn; left; congruence.
  - rewrite IH1 by exact Hnd; apply IH2.
    eapply Permutation_NoDup; [apply Permutation_map, Hp1|exact Hnd].
Qed.

(** X10: checkDeltasEqual ignores order: a delta list with distinct ids passes against any permutation of itself. *)
Lemma checkDeltasEqual_perm d0 d1 :
  Permutation d0 d1 ->
  NoDup (map (fun d => entityIdForInfo (Entity d)) d0) ->
  checkDeltasEqual d0 d1.
Proof.
  intros Hp Hnd.
  assert (Hnd1 : NoDup (map (fun d => entityIdForInfo (Entity d)) d1))
    by (eapply Permutation_NoDup; [apply Permutation_map, Hp|exact Hnd]).
  assert (D0 : deltaMap_from [] d0 <> None)
    by (apply deltaMap_from_defined; split; [exact Hnd|apply Forall_forall; reflexivity]).
  assert (D1 : deltaMap_from [] d1 <> None)
    by (apply deltaMap_from_defined; split; [exact Hnd1|apply Forall_forall; reflexivity]).
  unfold checkDeltasEqual, deltaMap.
  destruct (deltaMap_from [] d0) as [m0|] eqn:E0; [|contradiction].
  destruct (deltaMap_from [] d1) as [m1|] eqn:E1; [|contradiction].
  intros k; rewrite (deltaMap_from_lookup [] d0 m0 k E0), (deltaMap_from_lookup [] d1 m1 k E1).
  rewrite (find_perm (fun d => entityIdForInfo (Entity d)) k d0 d1 Hnd Hp); reflexivity.
Qed.

(** ** watcherState.update *)

(** X11: after watcherState.update, an id is bound to the last non-removal delta that mentions it, is unbound when the last one mentioning it is a removal, and keeps its old binding when no delta mentions it. *)
Lemma watcherState_update_lookup ds s s' k :
  watcherState_update ds s = Some s' ->
  elookup k s'
  = match find (fun d => entityId_eqb (entityIdForInfo (Entity d)) k) (rev ds) with
    | Some d => if Removed d then None else Some d
    | None => elookup k s
    end.
Proof.
  revert s; induction ds as [|d ds IH]; intros s H; simpl in *.
  - inversion H; reflexivity.
  - rewrite find_app'; simpl.
    destruct (Removed d) eqn:Er.
    + destruct (elookup (entityIdForInfo (Entity d)) s); [|discriminate].
      rewrite (IH _ H), elookup_edel, entityId_eqb_sym.
      destruct (find _ (rev ds)); auto.
      destruct (entityId_eqb (entityIdForInfo (Entity d)) k); [rewrite Er|]; reflexivity.
    + rewrite (IH _ H), elookup_eset, entityId_eqb_sym.
      destruct (find _ (rev ds)); auto.
      destruct (entityId_eqb (entityIdForInfo (Entity d)) k); [rewrite Er|]; reflexivity.
Qed.

(** ** Keys and stamps of reachable snapshots *)

Lemma lookup_None_not_In k l : lookup k l = None -> ~ In k (map fst l).
Proof.
  induction l as [|[k' e] l IH]; simpl; [tauto|].
  destruct (entityId_eqb k k') eqn:E; [discriminate|].
  intros H [Heq|Hin]; [subst; rewrite entityId_eqb_refl in E; discriminate|].
  exact (IH H Hin).
Qed.

Lemma remove_key_keys k l :
  NoDup (map fst l) ->
  NoDup (map fst (remove_key k l)) /\ ~ In k (map fst (remove_key k l)).
Proof.
  unfold remove_key; induction l as [|[k' e] l IH]; simpl; [split; [constructor|tauto]|].
  intros Hnd; inversion Hnd as [|? ? Hn Hnd']; subst.
  destruct (IH Hnd') as [H1 H2].
  destruct (entityId_eqb k' k) eqn:E; simpl; [split; auto|].
  split.
  - constructor; auto.
    intros Hin; apply Hn.
    apply in_map_iff in Hin as [p [Hp Hin]].
    apply filter_In in Hin as [Hin _]; rewrite <- Hp; apply in_map, Hin.
  - intros [Heq|Hin]; [subst; rewrite entityId_eqb_refl in E; discriminate|auto].
Qed.

Lemma NoDup_snoc_remove k e l :
  NoDup (map fst l) -> NoDup (map fst (remove_key k l ++ [(k, e)])).
Proof.
  intros Hnd; destruct (remove_key_keys k l Hnd) as [H1 H2].
  rewrite map_app; apply NoDup_app; auto.
  - repeat constructor; simpl; tauto.
  - intros x Hx [<-|[]]; exact (H2 Hx).
Qed.

Lemma modify_key_keys k f l : map fst (modify_key k f l) = map fst l.
Proof.
  induction l as [|[k' e] l IH]; simpl; auto.
  destruct (entityId_eqb k k'); simpl; rewrite ?IH; reflexivity.
Qed.

Lemma lookup_Forall (P : entityId * entityEntry -> Prop) k l e :
  Forall P l -> lookup k l = Some e -> P (k, e).
Proof.
  intros Hf Hl; rewrite Forall_forall in Hf; apply Hf, lookup_In, Hl.
Qed.

Lemma keys_inv_step a a' : snap_inv a -> keys_inv a -> snap_step a a' -> keys_inv a'.
Proof.
  intros (_ & _ & H0) [Hnd Hf] Hstep.
  assert (Hsnoc : forall k e, 1 <= creationRevno e -> 1 <= revno e ->
            keys_inv (mkAllInfo (latestRevno a + 1) (remove_key k (entries a) ++ [(k, e)]))).
  { intros k e H1 H2; split; simpl; [apply NoDup_snoc_remove, Hnd|].
    apply Forall_app; split; [apply Forall_remove_key, Hf|constructor; auto]. }
  assert (Hrem : forall r k, keys_inv (mkAllInfo r (remove_key k (entries a)))).
  { intros r k; split; simpl; [apply remove_key_keys, Hnd|apply Forall_remove_key, Hf]. }
  assert (Hmod : forall k n, keys_inv (mkAllInfo (latestRevno a)
                               (modify_key k (fun e' => with_refCount e' n) (entries a)))).
  { intros k n; split; simpl; [rewrite modify_key_keys; exact Hnd|].
    apply Forall_modify_key; [intros [k' e']; simpl; auto|exact Hf]. }
  destruct Hstep as [k i a Hl|k i a|k a|k a|k a|k a].
  - unfold add; split; simpl.
    + rewrite map_app; apply NoDup_app; auto.
      * repeat constructor; simpl; tauto.
      * intros x Hx [<-|[]]; exact (lookup_None_not_In _ _ Hl Hx).
    + apply Forall_app; split; [exact Hf|constructor; [simpl; lia|constructor]].
  - unfold update; destruct (lookup k (entries a)) as [e|] eqn:Hl.
    + apply Hsnoc; simpl; [apply (lookup_Forall _ k _ e Hf Hl)|lia].
    + unfold add; split; simpl.
      * rewrite map_app; apply NoDup_app; auto.
        -- repeat constructor; simpl; tauto.
        -- intros x Hx [<-|[]]; exact (lookup_None_not_In _ _ Hl Hx).
      * apply Forall_app; split; [exact Hf|constructor; [simpl; lia|constructor]].
  - unfold markRemoved; destruct (lookup k (entries a)) as [e|] eqn:Hl; [|split; auto].
    destruct (removed e); [split; auto|].
    destruct (refCount e =? 0); [apply Hrem|].
    apply Hsnoc; simpl; [apply (lookup_Forall _ k _ e Hf Hl)|lia].
  - apply Hrem.
  - unfold decRef; destruct (lookup k (entries a)); [|split; auto].
    destruct (_ && _); [apply Hrem|apply Hmod].
  - unfold incRef; destruct (lookup k (entries a)); [apply Hmod|split; auto].
Qed.

Lemma reachable_keys a : reachable a -> keys_inv a.
Proof.
  induction 1 as [|a a' Hr IH Hstep].
  - split; constructor.
  - exact (keys_inv_step a a' (reachable_inv a Hr) IH Hstep).
Qed.

Lemma filter_map_snd {B} (f : entityEntry -> bool) (l : list (B * entityEntry)) :
  filter f (map snd l) = map snd (filter (fun p => f (snd p)) l).
Proof.
  induction l as [|[k e] l IH]; simpl; auto.
  destruct (f e); simpl; rewrite IH; reflexivity.
Qed.

Lemma changesSince_0 a :
  keys_inv a ->
  changesSince 0 a
  = map (fun p => mkDelta false (info (snd p)))
      (filter (fun p => negb (removed (snd p))) (entries a)).
Proof.
  intros [_ Hf]; unfold changesSince.
  assert (Hs : skip_seen 0 (map snd (entries a)) = map snd (entries a)).
  { destruct (entries a) as [|[k e] l]; simpl; auto.
    inversion Hf as [|? ? [_ Hr] _]; simpl in Hr.
    destruct (Z.leb_spec (revno e) 0); [lia|reflexivity]. }
  rewrite Hs, filter_map_snd, map_map.
  rewrite (filter_ext_in _ (fun p => negb (removed (snd p)))).
  - apply map_ext_in; intros p Hp.
    apply filter_In in Hp as [_ Hp]; unfold toDelta.
    destruct (removed (snd p)); [discriminate|reflexivity].
  - intros p Hp; rewrite Forall_forall in Hf; destruct (Hf p Hp) as [Hc _].
    destruct (removed (snd p)); simpl; auto.
    destruct (Z.ltb_spec 0 (creationRevno (snd p))); [reflexivity|lia].
Qed.

Lemma eset_absent {A} k (v : A) m : elookup k m = None -> eset k v m = m ++ [(k, v)].
Proof.
  induction m as [|[k' v'] m IH]; simpl; auto.
  destruct (entityId_eqb k k'); [discriminate|].
  intros H; rewrite IH; auto.
Qed.

Lemma elookup_app {A} k (l1 l2 : list (entityId * A)) :
  elookup k (l1 ++ l2) = match elookup k l1 with Some v => Some v | None => elookup k l2 end.
Proof.
  induction l1 as [|[k' v] l1 IH]; simpl; auto.
  destruct (entityId_eqb k k'); auto.
Qed.

Lemma watcherState_update_fresh l s :
  NoDup (map fst l) ->
  Forall (fun p => fst p = entityIdForInfo (info (snd p))) l ->
  (forall k, In k (map fst l) -> elookup k s = None) ->
  watcherState_update (map (fun p => mkDelta false (info (snd p))) l) s
  = Some (s ++ map (fun p => (fst p, mkDelta false (info (snd p)))) l).
Proof.
  revert s; induction l as [|[k e] l IH]; intros s Hnd Hk Hs; simpl.
  - rewrite app_nil_r; reflexivity.
  - inversion Hnd as [|? ? Hn Hnd']; subst.
    inversion Hk as [|? ? Hk0 Hk']; subst; simpl in Hk0; rewrite <- Hk0.
    rewrite eset_absent by (apply Hs; left; reflexivity).
    rewrite IH; auto.
    + rewrite <- app_assoc; reflexivity.
    + intros k' Hin; rewrite elookup_app, Hs by (right; exact Hin).
      simpl; rewrite entityId_eqb_neq; [reflexivity|].
      intros ->; exact (Hn Hin).
Qed.

Lemma NoDup_map_fst_filter {B} (f : entityId * B -> bool) l :
  NoDup (map fst l) -> NoDup (map fst (filter f l)).
Proof.
  induction l as [|[k e] l IH]; simpl; auto.
  intros Hnd; inversion Hnd as [|? ? Hn Hnd']; subst.
  destruct (f (k, e)); simpl; auto.
  constructor; auto.
  intros Hin; apply Hn.
  apply in_map_iff in Hin as [p [Hp Hin]].
  apply filter_In in Hin as [Hin _]; rewrite <- Hp; apply in_map, Hin.
Qed.

(** X12: a client that applies [changesSince 0] of a reachable snapshot, keyed by entityIdForInfo, to an empty watcherState gets exactly the snapshot's non-removed entities, so watcherState.check passes. *)
Lemma initial_view_check a :
  reachable a ->
  Forall (fun p => fst p = entityIdForInfo (info (snd p))) (entries a) ->
  watcherState_update (changesSince 0 a) [] = Some (currentEntities a)
  /\ watcherState_check (currentEntities a) a.
Proof.
  intros Hr Hk; pose proof (reachable_keys a Hr) as Hinv.
  split; [|intros k; reflexivity].
  rewrite changesSince_0 by exact Hinv.
  unfold currentEntities.
  rewrite watcherState_update_fresh; [reflexivity| | |reflexivity].
  - apply NoDup_map_fst_filter, Hinv.
  - rewrite Forall_forall in *; intros p Hp; apply filter_In in Hp as [Hp _]; auto.
Qed.

Lemma initial_view_check_witness :
  let a := markRemoved k0 (update k1 m1 (incRef k0 (add k0 m0 newAllInfo))) in
  (reachable a /\ Forall (fun p => fst p = entityIdForInfo (info (snd p))) (entries a))
  /\ (watcherState_update (changesSince 0 a) [] = Some (currentEntities a)
      /\ watcherState_check (currentEntities a) a).
Proof.
  intros a.
  assert (Hr : reachable a).
  { apply (reach_step _ _ (reach_step _ _ (reach_step _ _ (reach_step _ _ reach_new
             (step_add k0 m0 newAllInfo eq_refl))
             (step_incRef k0 _)) (step_update k1 m1 _)) (step_markRemoved k0 _)). }
  assert (Hk : Forall (fun p => fst p = entityIdForInfo (info (snd p))) (entries a))
    by (vm_compute; repeat constructor).
  split; [split; assumption|apply initial_view_check; assumption].
Defined.

(** ** entityInfoSlice.Less *)

Lemma ascii_compare_refl c : Ascii.compare c c = Eq.
Proof. unfold Ascii.compare; apply N.compare_refl. Qed.

Lemma ascii_compare_trans c1 c2 c3 :
  Ascii.compare c1 c2 = Lt -> Ascii.compare c2 c3 = Lt -> Ascii.compare c1 c3 = Lt.
Proof.
  unfold Ascii.compare; rewrite !N.compare_lt_iff; lia.
Qed.

Lemma string_compare_refl s : String.compare s s = Eq.
Proof. induction s as [|c s IH]; simpl; rewrite ?ascii_compare_refl; auto. Qed.

Lemma string_compare_trans s1 s2 s3 :
  String.compare s1 s2 = Lt -> String.compare s2 s3 = Lt -> String.compare s1 s3 = Lt.
Proof.
  revert s2 s3; induction s1 as [|c1 s1 IH]; intros [|c2 s2] [|c3 s3]; simpl;
    try discriminate; auto.
  destruct (Ascii.compare c1 c2) eqn:E1; try discriminate;
  destruct (Ascii.compare c2 c3) eqn:E2; try discriminate.
  - apply Ascii.compare_eq_iff in E1, E2; subst; rewrite ascii_compare_refl; apply IH.
  - apply Ascii.compare_eq_iff in E1; subst; rewrite E2; auto.
  - apply Ascii.compare_eq_iff in E2; subst; rewrite E1; auto.
  - rewrite (ascii_compare_trans _ _ _ E1 E2); auto.
Qed.

Lemma string_ltb_lt s1 s2 : String.ltb s1 s2 = true <-> String.compare s1 s2 = Lt.
Proof. unfold String.ltb; destruct (String.compare s1 s2); split; congruence. Qed.

Lemma string_lt_neq s1 s2 : String.compare s1 s2 = Lt -> s1 <> s2.
Proof. intros H ->; rewrite string_compare_refl in H; discriminate. Qed.

(** X13: entityInfoSlice.Less is a strict weak order: irreflexive, transitive, and two infos are incomparable exactly when they have the same entity id. *)
Lemma Less_order :
  (forall a, Less a a = false)
  /\ (forall a b c, Less a b = true -> Less b c = true -> Less a c = true)
  /\ (forall a b, Less a b = false /\ Less b a = false <-> entityIdForInfo a = entityIdForInfo b).
Proof.
  assert (Hcase : forall a b, Less a b = true <->
            (EntityKind a <> EntityKind b /\ String.compare (EntityKind a) (EntityKind b) = Lt)
            \/ (EntityKind a = EntityKind b /\ String.compare (EntityId a) (EntityId b) = Lt)).
  { intros a b; unfold Less.
    destruct (String.eqb_spec (EntityKind a) (EntityKind b)) as [E|E]; simpl;
      rewrite string_ltb_lt; tauto. }
  split; [|split].
  - intros a; unfold Less; rewrite String.eqb_refl; simpl.
    unfold String.ltb; rewrite string_compare_refl; reflexivity.
  - intros a b c Hab Hbc; apply Hcase in Hab, Hbc; apply Hcase.
    destruct Hab as [[Hn1 H1]|[He1 H1]], Hbc as [[Hn2 H2]|[He2 H2]].
    + pose proof (string_compare_trans _ _ _ H1 H2) as H; left; split; [apply string_lt_neq|]; exact H.
    + rewrite He2 in H1; left; split; [apply string_lt_neq|]; exact H1.
    + rewrite <- He1 in H2; left; split; [apply string_lt_neq|]; exact H2.
    + right; split; [congruence|exact (string_compare_trans _ _ _ H1 H2)].
  - intros a b; split; [intros [Hab Hba]; unfold entityIdForInfo|].
    assert (Hk : EntityKind a = EntityKind b).
    { destruct (String.compare (EntityKind a) (EntityKind b)) eqn:E.
      - apply String.compare_eq_iff, E.
      - exfalso; assert (Less a b = true) by (apply Hcase; left; split; [apply string_lt_neq, E|exact E]).
        congruence.
      - exfalso; rewrite String.compare_antisym in E.
        destruct (String.compare (EntityKind b) (EntityKind a)) eqn:E'; try discriminate.
        assert (Less b a = true) by (apply Hcase; left; split; [apply string_lt_neq, E'|exact E']).
        congruence. }
    assert (Hi : EntityId a = EntityId b).
    { destruct (String.compare (EntityId a) (EntityId b)) eqn:E.
      - apply String.compare_eq_iff, E.
      - exfalso; assert (Less a b = true) by (apply Hcase; right; split; [exact Hk|exact E]).
        congruence.
      - exfalso; rewrite String.compare_antisym in E.
        destruct (String.compare (EntityId b) (EntityId a)) eqn:E'; try discriminate.
        assert (Less b a = true) by (apply Hcase; right; split; [congruence|exact E']).
        congruence. }
    rewrite Hk, Hi; reflexivity.
    intros Heq; unfold entityIdForInfo in Heq; injection Heq as Hk Hi.
    unfold Less; rewrite Hk, Hi, String.eqb_refl; simpl.
    unfold String.ltb; rewrite string_compare_refl; split; reflexivity.
Qed.

Lemma deltaMap_lookup_witness :
  deltaMap [mkDelta false m0; mkDelta true m1] = Some [(k0, Some m0); (k1, None)]
  /\ elookup k1 [(k0, Some m0); (k1, None)]
     = option_map (fun d => if Removed d then None else Some (Entity d))
         (find (fun d => entityId_eqb (entityIdForInfo (Entity d)) k1)
            [mkDelta false m0; mkDelta true m1]).
Proof.
  assert (H : deltaMap [mkDelta false m0; mkDelta true m1] = Some [(k0, Some m0); (k1, None)])
    by reflexivity.
  split; [exact H|apply (deltaMap_lookup _ _ k1 H)].
Defined.

Lemma checkDeltasEqual_perm_witness :
  (Permutation [mkDelta false m0; mkDelta true m1] [mkDelta true m1; mkDelta false m0]
   /\ NoDup (map (fun d => entityIdForInfo (Entity d)) [mkDelta false m0; mkDelta true m1]))
  /\ checkDeltasEqual [mkDelta false m0; mkDelta true m1] [mkDelta true m1; mkDelta false m0].
Proof.
  assert (Hp : Permutation [mkDelta false m0; mkDelta true m1] [mkDelta true m1; mkDelta false m0])
    by apply perm_swap.
  assert (Hnd : NoDup (map (fun d => entityIdForInfo (Entity d)) [mkDelta false m0; mkDelta true m1])).
  { vm_compute; constructor; [intros [H|[]]; discriminate H|].
    constructor; [intros []|constructor]. }
  split; [split; assumption|apply checkDeltasEqual_perm; assumption].
Defined.

Lemma watcherState_update_lookup_witness :
  watcherState_update [mkDelta false m0; mkDelta false m1; mkDelta true m0] []
    = Some [(k1, mkDelta false m1)]
  /\ elookup k0 [(k1, mkDelta false m1)]
     = match find (fun d => entityId_eqb (entityIdForInfo (Entity d)) k0)
               (rev [mkDelta false m0; mkDelta false m1; mkDelta true m0]) with
       | Some d => if Removed d then None else Some d
       | None => elookup k0 []
       end.
Proof.
  assert (H : watcherState_update [mkDelta false m0; mkDelta false m1; mkDelta true m0] []
              = Some [(k1, mkDelta false m1)]) by reflexivity.
  split; [exact H|apply (watcherState_update_lookup _ _ _ k0 H)].
Defined.
